(** * botwars: the game session engine ([src/server/models/game_instance.js])

    A shallow embedding of the [GameInstance] class: the session object that
    registers and connects players, forwards moves to an injected rules
    module, drives the move timer and keeps the history log. The JavaScript
    object is an explicit state record; every method is a function from the
    state before the call to the returned value and the state after it. *)

From stdpp Require Import base gmap list strings.
From Stdlib Require Import ZArith.

(** ** The injected rules module ([this.game])

    The class of the rules object is a constructor argument of the route
    ([game_route.js], [function(Game)]); the session only calls the methods
    below. The mutable rules object is a value of type [State]; a method that
    mutates it returns the new value. Player identifiers are the integers the
    session hands out, and a player count is a natural number. *)
Module Game.

Record t := {
  State : Type;
  Move : Type;
  Params : Type;
  Winner : Type;
  FullState : Type;
  View : Type;
  getPlayerCount : State -> nat;
  getParams : State -> Params;
  getNextPlayer : State -> Z;
  isValidMove : State -> Z -> Move -> bool;
  move : State -> Z -> Move -> Z -> State;
  isEnded : State -> bool;
  isError : State -> bool;
  getWinner : State -> Winner;
  getFullState : State -> FullState;
  getStateView : FullState -> option Z -> View;
  getMoveTimeLimit : State -> Z;
  onMoveTimeout : State -> bool * State
}.

End Game.

(** ** The move timer ([./utils/timer]) *)
Module Timer.

(** Modelled from the spec: [utils/timer.js] is not among the sources. Section
    4.1 describes a single-shot countdown: [start] schedules one fire and
    replaces a schedule that is still pending, [stop] cancels the pending
    schedule and returns the time elapsed since the last [start] (0 when
    nothing is pending). The callback is always the session's
    [_onMoveTimeout], so only the pending duration is kept; the wall-clock
    reading is an input of [stop]. *)
Record t := { pending : option Z }.

(** Modelled from the spec: a timer that was never started has no pending
    schedule. *)
Definition new : t := {| pending := None |}.

(** Modelled from the spec: [start(callback, durationMs)] schedules one fire
    and cancels a schedule that is still pending. *)
Definition start (durationMs : Z) (_ : t) : t := {| pending := Some durationMs |}.

(** Modelled from the spec: [stop()] cancels the pending schedule and
    returns the elapsed time, 0 when nothing is pending. *)
Definition stop (elapsed : Z) (tm : t) : Z * t :=
  match pending tm with
  | Some _ => (elapsed, new)
  | None => (0%Z, new)
  end.

(** Modelled from the spec: the countdown runs out. That is possible only
    while a schedule is pending, and the schedule is consumed before the
    callback runs (at most one pending fire). *)
Definition fire (tm : t) : option t :=
  match pending tm with
  | Some _ => Some new
  | None => None
  end.

End Timer.

(** [GameStatus], the frozen enumeration of the source. *)
Inductive GameStatus := NOT_STARTED | STARTED | ENDED | ERROR.

#[global] Instance GameStatus_eq_dec : EqDecision GameStatus.
Proof. solve_decision. Defined.

(** How a call completes: it returns, it throws a [TypeError], or its loop
    did not finish within the fuel of the model. *)
Inductive Completion (A : Type) :=
| Normal (a : A)
| Throw
| OutOfFuel.
Arguments Normal {A} a.
Arguments Throw {A}.
Arguments OutOfFuel {A}.

(** The object [getInfo] returns. A key that the spread leaves out is [None];
    the value of [nextPlayer] and [winner] is what the accessor of the same
    name returned ([null] is the inner [None]). *)
Module Info.

Record t (Params Winner : Type) := {
  gameId : string;
  params : Params;
  connectedPlayers : nat;
  players : nat;
  status : GameStatus;
  nextPlayer : option (option Z);
  winner : option (option Winner)
}.
Arguments gameId {Params Winner} _.
Arguments params {Params Winner} _.
Arguments connectedPlayers {Params Winner} _.
Arguments players {Params Winner} _.
Arguments status {Params Winner} _.
Arguments nextPlayer {Params Winner} _.
Arguments winner {Params Winner} _.

End Info.

Module GameInstance.

Section Session.

Variable rules : Game.t.

(** The five events the session emits. *)
Inductive Event :=
| EvStart
| EvStateChange
| EvMove (player : Z) (move : Game.Move rules)
| EvWaitingForMove (nextPlayer : Z)
| EvEnd.

(** An entry of [history.events]: [{eventType: "state", fullState}] or
    [{eventType: "move", player, move}]. *)
Inductive HistEvent :=
| HistState (fullState : Game.FullState rules)
| HistMove (player : Z) (move : Game.Move rules).

(** [this.history]: [next] is [null] ([None]) or the copied full state. The
    full state of a rules module is an object, so the test
    [if (this.history.next)] of the state handler and the test
    [this.history.next !== null] of the move handler both ask whether a
    snapshot is pending. [deepcopy] is the identity on the immutable values
    of the model. *)
Record History := {
  events : list HistEvent;
  next : option (Game.FullState rules)
}.

(** [this.playerState[player]]. *)
Record PlayerState := { connectedOnce : bool }.

(** The fields of a [GameInstance]. Two more fields record what an observer
    of the object sees over time: [emitted], every event passed to [emit],
    oldest first, and [visited], every value assigned to [status], oldest
    first. *)
Record t := mk {
  id : string;
  game : Game.State rules;
  status : GameStatus;
  moveTimer : Timer.t;
  history : History;
  currentPlayerCount : nat;
  connectedPlayerCount : nat;
  playerTokenTable : gmap string Z;
  playerState : gmap Z PlayerState;
  emitted : list Event;
  visited : list GameStatus
}.

(** The constructor. *)
Definition new (id : string) (game : Game.State rules) : t :=
  {| id := id;
     game := game;
     status := NOT_STARTED;
     moveTimer := Timer.new;
     history := {| events := []; next := None |};
     currentPlayerCount := 0;
     connectedPlayerCount := 0;
     playerTokenTable := ∅;
     playerState := ∅;
     emitted := [];
     visited := [NOT_STARTED] |}.

Definition set_game (g : Game.State rules) (s : t) : t :=
  mk (id s) g (status s) (moveTimer s) (history s) (currentPlayerCount s)
     (connectedPlayerCount s) (playerTokenTable s) (playerState s) (emitted s) (visited s).

(** [this.status = st]. *)
Definition set_status (st : GameStatus) (s : t) : t :=
  mk (id s) (game s) st (moveTimer s) (history s) (currentPlayerCount s)
     (connectedPlayerCount s) (playerTokenTable s) (playerState s) (emitted s)
     (visited s ++ [st]).

Definition set_moveTimer (tm : Timer.t) (s : t) : t :=
  mk (id s) (game s) (status s) tm (history s) (currentPlayerCount s)
     (connectedPlayerCount s) (playerTokenTable s) (playerState s) (emitted s) (visited s).

Definition set_history (h : History) (s : t) : t :=
  mk (id s) (game s) (status s) (moveTimer s) h (currentPlayerCount s)
     (connectedPlayerCount s) (playerTokenTable s) (playerState s) (emitted s) (visited s).

Definition log_event (e : Event) (s : t) : t :=
  mk (id s) (game s) (status s) (moveTimer s) (history s) (currentPlayerCount s)
     (connectedPlayerCount s) (playerTokenTable s) (playerState s) (emitted s ++ [e]) (visited s).

(** The listener the constructor installs for ["start"] and ["stateChange"]:
    a pending snapshot is pushed onto [events], then the current full state
    becomes the pending snapshot. *)
Definition onStateEvent (s : t) : t :=
  let h := history s in
  let events' :=
    match next h with
    | Some fullState => events h ++ [HistState fullState]
    | None => events h
    end in
  set_history {| events := events'; next := Some (Game.getFullState rules (game s)) |} s.

(** The listener the constructor installs for ["move"]. *)
Definition onMoveEvent (player : Z) (move : Game.Move rules) (s : t) : t :=
  let h := history s in
  let events' :=
    match next h with
    | Some fullState => events h ++ [HistState fullState]
    | None => events h
    end in
  set_history {| events := events' ++ [HistMove player move]; next := None |} s.

(** [this.emit(event, ...)]: the listeners run synchronously. Those of the
    constructor come first; the listeners a stream adds later
    ([game_route.js]) only write to their socket. *)
Definition emit (e : Event) (s : t) : t :=
  let s := log_event e s in
  match e with
  | EvStart | EvStateChange => onStateEvent s
  | EvMove player move => onMoveEvent player move s
  | EvWaitingForMove _ | EvEnd => s
  end.

Definition hasStarted (s : t) : bool :=
  negb (bool_decide (status s = NOT_STARTED)).

Definition isEnded (s : t) : option bool :=
  if hasStarted s then Some (Game.isEnded rules (game s)) else None.

Definition getNextPlayer (s : t) : option Z :=
  if hasStarted s then Some (Game.getNextPlayer rules (game s)) else None.

Definition getWinner (s : t) : option (Game.Winner rules) :=
  if hasStarted s then Some (Game.getWinner rules (game s)) else None.

(** The names a plain object inherits from [Object.prototype]. *)
Definition objectPrototypeNames : list string :=
  ["constructor"; "hasOwnProperty"; "isPrototypeOf"; "propertyIsEnumerable";
   "toLocaleString"; "toString"; "valueOf"; "__proto__";
   "__defineGetter__"; "__defineSetter__"; "__lookupGetter__"; "__lookupSetter__"].

(** What reading [this.playerTokenTable[playerToken]] gives: the player a
    token was bound to, a member inherited from [Object.prototype] (a
    function or the prototype object: truthy, and no player), or
    [undefined]. *)
Inductive TableValue :=
| Player (player : Z)
| InheritedMember (name : string)
| Undefined.

(** [getPlayer(playerToken)]. The table is a plain object ([{}]) read with
    [[]]: a property of its own wins, except under the name [__proto__],
    where an assignment of a number creates no property and the read gives
    the prototype; a name without a property of its own is looked up in
    [Object.prototype]. *)
Definition getPlayer (playerToken : string) (s : t) : TableValue :=
  if bool_decide (playerToken = "__proto__") then InheritedMember playerToken
  else
    match playerTokenTable s !! playerToken with
    | Some player => Player player
    | None =>
        if bool_decide (playerToken ∈ objectPrototypeNames)
        then InheritedMember playerToken
        else Undefined
    end.

Definition getInfo (s : t) : Info.t (Game.Params rules) (Game.Winner rules) :=
  {| Info.gameId := id s;
     Info.params := Game.getParams rules (game s);
     Info.connectedPlayers := connectedPlayerCount s;
     Info.players := Game.getPlayerCount rules (game s);
     Info.status := status s;
     Info.nextPlayer :=
       if bool_decide (status s = STARTED) then Some (getNextPlayer s) else None;
     Info.winner :=
       if bool_decide (status s = ENDED) then Some (getWinner s) else None |}.

(** [getHistory(player)]: an entry of the log per element, a state entry
    projected for the viewer ([None] is an absent viewer). *)
Inductive HistView :=
| ViewMove (player : Z) (move : Game.Move rules)
| ViewState (state : Game.View rules).

Definition getHistory (player : option Z) (s : t) : list HistView :=
  map (fun histEvent =>
         match histEvent with
         | HistMove p m => ViewMove p m
         | HistState fullState => ViewState (Game.getStateView rules fullState player)
         end)
      (events (history s)).

(** [_onStateChange({announceState, announceMove})]. *)
Definition _onStateChange (announceState announceMove : bool) (s : t) : t :=
  if negb (Game.isEnded rules (game s)) then
    let s := if announceState then emit EvStateChange s else s in
    let s := if announceMove
             then emit (EvWaitingForMove (Game.getNextPlayer rules (game s))) s
             else s in
    set_moveTimer (Timer.start (Game.getMoveTimeLimit rules (game s)) (moveTimer s)) s
  else
    let s := set_status (if Game.isError rules (game s) then ERROR else ENDED) s in
    emit EvEnd s.

(** [_onMoveTimeout()], the callback of the move timer. *)
Definition _onMoveTimeout (s : t) : t :=
  let oldNextPlayer := Game.getNextPlayer rules (game s) in
  let '(changed, g) := Game.onMoveTimeout rules (game s) in
  let s := set_game g s in
  if changed then
    _onStateChange true
      (negb (bool_decide (Game.getNextPlayer rules (game s) = oldNextPlayer))) s
  else s.

(** [while (this.playerState[player]) player++], one iteration per unit of
    fuel; [None] when the fuel runs out before the loop exits. *)
Fixpoint freeSlot (fuel : nat) (playerState : gmap Z PlayerState) (player : Z) : option Z :=
  match fuel with
  | O => None
  | S fuel' =>
      match playerState !! player with
      | Some _ => freeSlot fuel' playerState (player + 1)%Z
      | None => Some player
      end
  end.

(** The argument of [registerNewPlayer] read as a condition: [undefined]
    ([None]) and [0] are falsy, every other integer is a requested slot. *)
Definition requestedSlot (player : option Z) : option Z :=
  match player with
  | Some p => if bool_decide (p = 0%Z) then None else Some p
  | None => None
  end.

(** [registerNewPlayer(player)]. [playerToken] is the value of
    [crypto.randomBytes(20).toString("hex")], an input of the call. The loop
    that looks for a free slot gets one more unit of fuel than there are
    registered players. The result is [null] ([None]) or
    [{player, playerToken}]. *)
Definition registerNewPlayer (player : option Z) (playerToken : string) (s : t)
  : Completion (option (Z * string) * t) :=
  if match requestedSlot player with
     | Some p => bool_decide (is_Some (playerState s !! p))
     | None => false
     end
  then Normal (None, s)
  else if bool_decide (currentPlayerCount s = Game.getPlayerCount rules (game s))
  then Normal (None, s)
  else
    match
      match requestedSlot player with
      | Some p => Some p
      | None => freeSlot (S (size (playerState s))) (playerState s) 1%Z
      end
    with
    | None => OutOfFuel
    | Some p =>
        Normal (Some (p, playerToken),
                mk (id s) (game s) (status s) (moveTimer s) (history s)
                   (S (currentPlayerCount s)) (connectedPlayerCount s)
                   (<[playerToken := p]> (playerTokenTable s))
                   (<[p := {| connectedOnce := false |}]> (playerState s))
                   (emitted s) (visited s))
    end.

(** [connect(player)]. Reading [connectedOnce] of a missing record throws. *)
Definition connect (player : Z) (s : t) : Completion t :=
  match playerState s !! player with
  | None => Throw
  | Some ps =>
      if connectedOnce ps then Normal s
      else
        let s := mk (id s) (game s) (status s) (moveTimer s) (history s)
                    (currentPlayerCount s) (S (connectedPlayerCount s))
                    (playerTokenTable s)
                    (<[player := {| connectedOnce := true |}]> (playerState s))
                    (emitted s) (visited s) in
        if negb (hasStarted s)
           && bool_decide (connectedPlayerCount s = Game.getPlayerCount rules (game s))
        then
          let s := set_status STARTED s in
          let s := emit EvStart s in
          Normal (_onStateChange false true s)
        else Normal s
  end.

(** [move(player, move)]: [null] is [None], [false] and [true] are
    [Some false] and [Some true]. [elapsed] is the reading of the clock that
    [moveTimer.stop()] takes. *)
Definition move (player : Z) (mv : Game.Move rules) (elapsed : Z) (s : t)
  : option bool * t :=
  if negb (hasStarted s) then (None, s)
  else if Game.isEnded rules (game s) || negb (Game.isValidMove rules (game s) player mv)
  then (Some false, s)
  else
    let '(moveTime, tm) := Timer.stop elapsed (moveTimer s) in
    let s := set_moveTimer tm s in
    let s := set_game (Game.move rules (game s) player mv moveTime) s in
    let s := emit (EvMove player mv) s in
    (Some true, _onStateChange true true s).

(** The move timer fires: the callback runs if a schedule was pending. *)
Definition timerFire (s : t) : t :=
  match Timer.fire (moveTimer s) with
  | Some tm => _onMoveTimeout (set_moveTimer tm s)
  | None => s
  end.

(** The calls that reach a session, one at a time (JavaScript runs each
    handler and each timer callback to completion). *)
Inductive Op :=
| OpRegister (player : option Z) (playerToken : string)
| OpConnect (player : Z)
| OpMove (player : Z) (mv : Game.Move rules) (elapsed : Z)
| OpTimerFire.

(** A call that throws leaves the object as it was: [connect] throws before
    its first assignment. *)
Definition step (s : t) (op : Op) : t :=
  match op with
  | OpRegister player playerToken =>
      match registerNewPlayer player playerToken s with
      | Normal (_, s') => s'
      | _ => s
      end
  | OpConnect player =>
      match connect player s with
      | Normal s' => s'
      | _ => s
      end
  | OpMove player mv elapsed => snd (move player mv elapsed s)
  | OpTimerFire => timerFire s
  end.

Definition run (ops : list Op) (s : t) : t := fold_left step ops s.

End Session.

Arguments EvStart {rules}.
Arguments EvStateChange {rules}.
Arguments EvMove {rules} player move.
Arguments EvWaitingForMove {rules} nextPlayer.
Arguments EvEnd {rules}.
Arguments HistState {rules} fullState.
Arguments HistMove {rules} player move.
Arguments OpRegister {rules} player playerToken.
Arguments OpConnect {rules} player.
Arguments OpMove {rules} player mv elapsed.
Arguments OpTimerFire {rules}.
Arguments id {rules} _.
Arguments game {rules} _.
Arguments status {rules} _.
Arguments moveTimer {rules} _.
Arguments history {rules} _.
Arguments currentPlayerCount {rules} _.
Arguments connectedPlayerCount {rules} _.
Arguments playerTokenTable {rules} _.
Arguments playerState {rules} _.
Arguments emitted {rules} _.
Arguments visited {rules} _.
Arguments events {rules} _.
Arguments next {rules} _.

End GameInstance.

(** ** What the statements below speak about *)
Section Observations.

Variable rules : Game.t.

(** The log entry a pending snapshot becomes when it is pushed. *)
Definition pendingEntry (h : GameInstance.History rules) : list (GameInstance.HistEvent rules) :=
  match GameInstance.next h with
  | Some fullState => [GameInstance.HistState fullState]
  | None => []
  end.

(** No two neighbours of the log are both state snapshots. *)
Fixpoint coalesced (l : list (GameInstance.HistEvent rules)) : bool :=
  match l with
  | [] => true
  | e :: tl =>
      match e, tl with
      | GameInstance.HistState _, GameInstance.HistState _ :: _ => false
      | _, _ => coalesced tl
      end
  end.

Definition isTimerFire (op : GameInstance.Op rules) : bool :=
  match op with
  | GameInstance.OpTimerFire => true
  | _ => false
  end.

(** No call of the list is a fire of the move timer. *)
Definition noTimerFire (ops : list (GameInstance.Op rules)) : bool :=
  forallb (fun op => negb (isTimerFire op)) ops.

(** The log is empty or its last entry is a move. *)
Definition afterMove (l : list (GameInstance.HistEvent rules)) : Prop :=
  l = [] \/ exists l' player move, l = l' ++ [GameInstance.HistMove player move].

Definition isStart (e : GameInstance.Event rules) : bool :=
  match e with
  | GameInstance.EvStart => true
  | _ => false
  end.

(** How many times ["start"] was emitted. *)
Definition starts (l : list (GameInstance.Event rules)) : nat :=
  length (List.filter isStart l).

(** The calls of a list of registrations, in order. *)
Definition registrations (l : list (option Z * string)) : list (GameInstance.Op rules) :=
  map (fun r => GameInstance.OpRegister (fst r) (snd r)) l.

(** The game is over for the session: a terminal status, the rules module
    says so, and no timeout is pending. *)
Definition terminal (s : GameInstance.t rules) : Prop :=
  (GameInstance.status s = ENDED \/ GameInstance.status s = ERROR)
  /\ Game.isEnded rules (GameInstance.game s) = true
  /\ Timer.pending (GameInstance.moveTimer s) = None.

(** What the status, the log of assigned statuses, the timer and the emitted
    events have to do with each other in a session that started from the
    constructor. *)
Definition lifecycle (s : GameInstance.t rules) : Prop :=
  match GameInstance.status s with
  | NOT_STARTED =>
      GameInstance.visited s = [NOT_STARTED]
      /\ Timer.pending (GameInstance.moveTimer s) = None
      /\ starts (GameInstance.emitted s) = 0
      /\ GameInstance.events (GameInstance.history s) = []
      /\ GameInstance.next (GameInstance.history s) = None
  | STARTED =>
      GameInstance.visited s = [NOT_STARTED; STARTED]
      /\ starts (GameInstance.emitted s) = 1
  | ENDED =>
      GameInstance.visited s = [NOT_STARTED; STARTED; ENDED]
      /\ starts (GameInstance.emitted s) = 1
      /\ Timer.pending (GameInstance.moveTimer s) = None
      /\ Game.isEnded rules (GameInstance.game s) = true
      /\ Game.isError rules (GameInstance.game s) = false
  | ERROR =>
      GameInstance.visited s = [NOT_STARTED; STARTED; ERROR]
      /\ starts (GameInstance.emitted s) = 1
      /\ Timer.pending (GameInstance.moveTimer s) = None
      /\ Game.isEnded rules (GameInstance.game s) = true
      /\ Game.isError rules (GameInstance.game s) = true
  end.

End Observations.

Arguments pendingEntry {rules} h.
Arguments coalesced {rules} l.
Arguments isTimerFire {rules} op.
Arguments noTimerFire {rules} ops.
Arguments afterMove {rules} l.
Arguments isStart {rules} e.
Arguments starts {rules} l : simpl never.
Arguments registrations {rules} l.
Arguments terminal {rules} s.
Arguments lifecycle {rules} s.

(** ** A small rules module to run the session on

    Two players take turns. A move is valid for the player whose turn it is;
    [Pass] hands the turn over, [Win] ends the game with the mover as winner
    and [Crash] ends it with the error flag set. A timeout changes nothing
    in a [patient] game; otherwise the first timeout of a turn only counts a
    strike and the second hands the turn over. *)
Module Toy.

Inductive ToyMove := Pass | Win | Crash.

Record ToyState := {
  turn : Z;
  over : bool;
  failed : bool;
  strikes : nat;
  champion : option Z;
  patient : bool
}.

Definition other (p : Z) : Z := if bool_decide (p = 1%Z) then 2%Z else 1%Z.

Definition toyMove (g : ToyState) (player : Z) (mv : ToyMove) (thinkTime : Z) : ToyState :=
  match mv with
  | Pass => {| turn := other (turn g); over := over g; failed := failed g;
               strikes := 0; champion := champion g; patient := patient g |}
  | Win => {| turn := turn g; over := true; failed := failed g;
              strikes := strikes g; champion := Some player; patient := patient g |}
  | Crash => {| turn := turn g; over := true; failed := true;
                strikes := strikes g; champion := champion g; patient := patient g |}
  end.

Definition toyTimeout (g : ToyState) : bool * ToyState :=
  if patient g then (false, g)
  else if bool_decide (strikes g = 0) then
    (true, {| turn := turn g; over := over g; failed := failed g;
              strikes := 1; champion := champion g; patient := patient g |})
  else
    (true, {| turn := other (turn g); over := over g; failed := failed g;
              strikes := 0; champion := champion g; patient := patient g |}).

Definition rules : Game.t :=
  {| Game.State := ToyState;
     Game.Move := ToyMove;
     Game.Params := unit;
     Game.Winner := option Z;
     Game.FullState := ToyState;
     Game.View := ToyState;
     Game.getPlayerCount := fun _ => 2;
     Game.getParams := fun _ => tt;
     Game.getNextPlayer := turn;
     Game.isValidMove := fun g player _ => bool_decide (player = turn g);
     Game.move := toyMove;
     Game.isEnded := over;
     Game.isError := failed;
     Game.getWinner := champion;
     Game.getFullState := fun g => g;
     Game.getStateView := fun fullState _ => fullState;
     Game.getMoveTimeLimit := fun _ => 1000%Z;
     Game.onMoveTimeout := toyTimeout |}.

(** A running game with the given player to move and strikes counted. *)
Definition position (turn : Z) (strikes : nat) : ToyState :=
  {| turn := turn; over := false; failed := false; strikes := strikes;
     champion := None; patient := false |}.

(** A fresh game: player 1 is to move. *)
Definition fresh : ToyState := position 1 0.

(** A game whose timeouts change nothing. *)
Definition calm : ToyState :=
  {| turn := 1; over := false; failed := false; strikes := 0;
     champion := None; patient := true |}.

(** A game that is over before the first move. *)
Definition finished : ToyState :=
  {| turn := 1; over := true; failed := false; strikes := 0;
     champion := None; patient := false |}.

Definition play (player : Z) (mv : ToyMove) (elapsed : Z) : GameInstance.Op rules :=
  @GameInstance.OpMove rules player mv elapsed.

Definition tick : GameInstance.Op rules := GameInstance.OpTimerFire.

(** Both players register (slots 1 and 2); player 1 connects. *)
Definition lobby : list (GameInstance.Op rules) :=
  [GameInstance.OpRegister None "aa"; GameInstance.OpRegister None "bb";
   GameInstance.OpConnect 1].

(** Both players register and connect. *)
Definition seat : list (GameInstance.Op rules) := lobby ++ [GameInstance.OpConnect 2].

Definition session (g : ToyState) (ops : list (GameInstance.Op rules)) : GameInstance.t rules :=
  GameInstance.run rules ops (GameInstance.new rules "g1" g).


End Toy.

(** ** The transcript and the registry of a session *)
Section Transcript.

Variable rules : Game.t.

Definition moveOfEntry (e : GameInstance.HistEvent rules) : option (Z * Game.Move rules) :=
  match e with
  | GameInstance.HistMove player move => Some (player, move)
  | GameInstance.HistState _ => None
  end.

(** The moves of the log, oldest first. *)
Definition loggedMoves (l : list (GameInstance.HistEvent rules)) : list (Z * Game.Move rules) :=
  omap moveOfEntry l.

Definition moveOfEvent (e : GameInstance.Event rules) : option (Z * Game.Move rules) :=
  match e with
  | GameInstance.EvMove player move => Some (player, move)
  | _ => None
  end.

(** The moves emitted with ["move"], oldest first. *)
Definition emittedMoves (l : list (GameInstance.Event rules)) : list (Z * Game.Move rules) :=
  omap moveOfEvent l.

Definition isSnapshot (e : GameInstance.HistEvent rules) : bool :=
  match e with
  | GameInstance.HistState _ => true
  | GameInstance.HistMove _ _ => false
  end.

(** The snapshots the history holds: those of the log and the pending one. *)
Definition snapshots (h : GameInstance.History rules) : nat :=
  length (List.filter isSnapshot (GameInstance.events h))
  + match GameInstance.next h with
    | Some _ => 1
    | None => 0
    end.

Definition isStateEvent (e : GameInstance.Event rules) : bool :=
  match e with
  | GameInstance.EvStart | GameInstance.EvStateChange => true
  | _ => false
  end.

(** How many times ["start"] or ["stateChange"] was emitted. *)
Definition stateEvents (l : list (GameInstance.Event rules)) : nat :=
  length (List.filter isStateEvent l).

Definition isEnd (e : GameInstance.Event rules) : bool :=
  match e with
  | GameInstance.EvEnd => true
  | _ => false
  end.

(** How many times ["end"] was emitted. *)
Definition ends (l : list (GameInstance.Event rules)) : nat :=
  length (List.filter isEnd l).

(** The history has lost nothing: its moves are the moves emitted, and it
    holds as many snapshots as ["start"] and ["stateChange"] were emitted. *)
Definition faithful (s : GameInstance.t rules) : Prop :=
  loggedMoves (GameInstance.events (GameInstance.history s))
    = emittedMoves (GameInstance.emitted s)
  /\ snapshots (GameInstance.history s) = stateEvents (GameInstance.emitted s).

(** A pending timeout belongs to a started game that is not over and runs
    for the move time limit of the current state. *)
Definition scheduled (s : GameInstance.t rules) : Prop :=
  forall d, Timer.pending (GameInstance.moveTimer s) = Some d ->
    GameInstance.status s = STARTED
    /\ Game.isEnded rules (GameInstance.game s) = false
    /\ d = Game.getMoveTimeLimit rules (GameInstance.game s).

(** The projection [getHistory] applies to an entry of the log. *)
Definition viewEntry (viewer : option Z) (e : GameInstance.HistEvent rules)
  : GameInstance.HistView rules :=
  match e with
  | GameInstance.HistMove p m => GameInstance.ViewMove rules p m
  | GameInstance.HistState fullState =>
      GameInstance.ViewState rules (Game.getStateView rules fullState viewer)
  end.

(** The emitted events as the status allows them: none before the start;
    ["start"] first and no ["end"] while the game runs; ["start"] first and
    one ["end"], the last event, once the status is terminal. *)
Definition ordered (st : GameStatus) (l : list (GameInstance.Event rules)) : Prop :=
  match st with
  | NOT_STARTED => l = []
  | STARTED => exists tl, l = GameInstance.EvStart :: tl /\ ends tl = 0
  | ENDED | ERROR => exists mid, l = GameInstance.EvStart :: mid ++ [GameInstance.EvEnd]
                                 /\ ends mid = 0
  end.

(** The records of the players that have connected. *)
Definition connectedRecords (m : gmap Z GameInstance.PlayerState) : gmap Z GameInstance.PlayerState :=
  filter (fun kv => GameInstance.connectedOnce kv.2 = true) m.

(** The two counters count what they are named after. *)
Definition counted (s : GameInstance.t rules) : Prop :=
  GameInstance.currentPlayerCount s = size (GameInstance.playerState s)
  /\ GameInstance.connectedPlayerCount s
     = size (connectedRecords (GameInstance.playerState s)).

(** Every token of the table belongs to a registered player other than 0. *)
Definition tokensResolve (s : GameInstance.t rules) : Prop :=
  forall playerToken p,
    GameInstance.playerTokenTable s !! playerToken = Some p ->
    p <> 0%Z /\ is_Some (GameInstance.playerState s !! p).

(** Registrations that request no slot, as [POST /:gameId/register] makes
    them ([game_route.js], [req.game.registerNewPlayer()]). *)
Definition autoRegistrations (tokens : list string) : list (GameInstance.Op rules) :=
  registrations (map (fun playerToken => (None, playerToken)) tokens).

(** The registered slots are 1 to [k]. *)
Definition seated (k : nat) (s : GameInstance.t rules) : Prop :=
  forall q : Z, is_Some (GameInstance.playerState s !! q) <-> (1 <= q <= Z.of_nat k)%Z.

End Transcript.

Arguments moveOfEntry {rules} e.
Arguments loggedMoves {rules} l.
Arguments moveOfEvent {rules} e.
Arguments emittedMoves {rules} l.
Arguments isSnapshot {rules} e.
Arguments snapshots {rules} h.
Arguments isStateEvent {rules} e.
Arguments stateEvents {rules} l : simpl never.
Arguments isEnd {rules} e.
Arguments ends {rules} l : simpl never.
Arguments ordered {rules} st l.
Arguments faithful {rules} s.
Arguments scheduled {rules} s.
Arguments viewEntry {rules} viewer e.
Arguments counted {rules} s.
Arguments tokensResolve {rules} s.
Arguments autoRegistrations {rules} tokens.
Arguments seated {rules} k s.

Import GameInstance.

(** ** Facts about the accessors and the result of a move *)
Section Accessors.

Variable rules : Game.t.
Implicit Types s : GameInstance.t rules.

Lemma hasStarted_true s : hasStarted rules s = true <-> status s <> NOT_STARTED.
Proof.
  unfold hasStarted. by rewrite negb_true_iff, bool_decide_eq_false.
Qed.

Lemma hasStarted_false s : hasStarted rules s = false <-> status s = NOT_STARTED.
Proof.
  unfold hasStarted. rewrite negb_false_iff, bool_decide_eq_true. done.
Qed.

(** C3 (as amended): the summary always carries the identifier, the
    parameters, the two player counts and the status; [nextPlayer] is present
    exactly while the status is STARTED and holds the next player of the
    rules module; [winner] is present exactly while the status is ENDED (it
    is absent in status ERROR) and holds the winner of the rules module. *)
Theorem getInfo_summary s :
  Info.gameId (getInfo rules s) = id s
  /\ Info.params (getInfo rules s) = Game.getParams rules (game s)
  /\ Info.connectedPlayers (getInfo rules s) = connectedPlayerCount s
  /\ Info.players (getInfo rules s) = Game.getPlayerCount rules (game s)
  /\ Info.status (getInfo rules s) = status s
  /\ (is_Some (Info.nextPlayer (getInfo rules s)) <-> status s = STARTED)
  /\ (status s = STARTED ->
      Info.nextPlayer (getInfo rules s) = Some (Some (Game.getNextPlayer rules (game s))))
  /\ (is_Some (Info.winner (getInfo rules s)) <-> status s = ENDED)
  /\ (status s = ENDED ->
      Info.winner (getInfo rules s) = Some (Some (Game.getWinner rules (game s)))).
Proof.
  repeat split; try reflexivity; cbn; unfold getNextPlayer, getWinner, hasStarted.
  - case_bool_decide; [done | intros [x Hx]; congruence].
  - intros ->. rewrite bool_decide_eq_true_2; eauto.
  - intros ->. reflexivity.
  - case_bool_decide; [done | intros [x Hx]; congruence].
  - intros ->. rewrite bool_decide_eq_true_2; eauto.
  - intros ->. reflexivity.
Qed.

(** C6: [move] returns [null] exactly when the session has not started,
    [false] exactly when it has started and the game is over or the rules
    module finds the move invalid for the player, and [true] exactly when it
    has started, the game is not over and the move is valid. A call that does
    not return [true] leaves the session as it was; a call that returns
    [true] has handed the move to the rules module and emitted ["move"]. *)
Theorem move_result s (player : Z) (mv : Game.Move rules) (elapsed : Z) :
  let r := GameInstance.move rules player mv elapsed s in
  (fst r = None <-> status s = NOT_STARTED)
  /\ (fst r = Some false <->
      status s <> NOT_STARTED
      /\ (Game.isEnded rules (game s) = true
          \/ Game.isValidMove rules (game s) player mv = false))
  /\ (fst r = Some true <->
      status s <> NOT_STARTED
      /\ Game.isEnded rules (game s) = false
      /\ Game.isValidMove rules (game s) player mv = true)
  /\ (fst r <> Some true -> snd r = s)
  /\ (fst r = Some true ->
      Game.move rules (game s) player mv (fst (Timer.stop elapsed (moveTimer s)))
        = game (snd r)
      /\ exists l, emitted (snd r) = emitted s ++ EvMove player mv :: l).
Proof.
  cbn zeta. unfold GameInstance.move.
  destruct (hasStarted rules s) eqn:Hs; cbn [negb].
  2:{ apply hasStarted_false in Hs. cbn. repeat split; try congruence; tauto. }
  apply hasStarted_true in Hs.
  destruct (Game.isEnded rules (game s)) eqn:He; cbn [orb].
  { cbn. repeat split; try congruence; try tauto. intros (_ & ? & _); congruence. }
  destruct (Game.isValidMove rules (game s) player mv) eqn:Hv; cbn [negb].
  { destruct (Timer.stop elapsed (moveTimer s)) as [moveTime tm] eqn:Hstop. cbn [fst snd].
    repeat split; try congruence; try tauto.
    - intros (_ & [?|?]); congruence.
    - unfold _onStateChange. cbn.
      destruct (Game.isEnded rules (Game.move _ _ _ _ _)); reflexivity.
    - unfold _onStateChange. cbn.
      destruct (Game.isEnded rules (Game.move _ _ _ _ _));
        cbn; rewrite <- ?app_assoc; cbn; eauto. }
  cbn. repeat split; try congruence; try tauto. intros (_ & _ & ?); congruence.
Qed.

(** [connect] returns for a player that has a record. *)
Lemma connect_returns s (player : Z) :
  is_Some (playerState s !! player) -> exists s', connect rules player s = Normal s'.
Proof.
  intros [ps Hp]. unfold connect. rewrite Hp.
  destruct (connectedOnce ps); [eauto|]. destruct (_ && _); eauto.
Qed.

(** C10: [connect] throws exactly for a player that has no record in
    [playerState], that is, one that was never registered; it then changes
    nothing. For a registered player it returns. *)
Theorem connect_unregistered_throws s (player : Z) :
  (connect rules player s = Throw <-> playerState s !! player = None)
  /\ (playerState s !! player = None -> step rules s (OpConnect player) = s)
  /\ (is_Some (playerState s !! player) -> exists s', connect rules player s = Normal s').
Proof.
  split; [|split].
  - unfold connect. destruct (playerState s !! player) as [ps|]; [|done].
    split; [|discriminate].
    destruct (connectedOnce ps); [discriminate|]. destruct (_ && _); discriminate.
  - intros Hp. unfold step, connect. by rewrite Hp.
  - apply connect_returns.
Qed.

End Accessors.

(** ** The life cycle of a session *)
Section Lifecycle.

Variable rules : Game.t.
Implicit Types s : GameInstance.t rules.

Lemma starts_snoc (l : list (Event rules)) e :
  starts (l ++ [e]) = starts l + (if isStart e then 1 else 0).
Proof.
  unfold starts. rewrite List.filter_app, length_app. cbn.
  destruct (isStart e); reflexivity.
Qed.

Lemma run_cons s op ops : run rules (op :: ops) s = run rules ops (step rules s op).
Proof. reflexivity. Qed.

(** An invariant of [step] holds after every run. *)
Lemma run_invariant (P : GameInstance.t rules -> Prop) :
  (forall s op, P s -> P (step rules s op)) ->
  forall ops s, P s -> P (run rules ops s).
Proof.
  intros Hstep ops. induction ops as [|op ops IH]; intros s Hs; [exact Hs|].
  rewrite run_cons. apply IH, Hstep, Hs.
Qed.

(** What [_onStateChange] leaves alone. *)
Lemma onStateChange_frame a b s :
  let s' := _onStateChange rules a b s in
  id s' = id s /\ game s' = game s
  /\ currentPlayerCount s' = currentPlayerCount s
  /\ connectedPlayerCount s' = connectedPlayerCount s
  /\ playerTokenTable s' = playerTokenTable s
  /\ playerState s' = playerState s.
Proof.
  unfold _onStateChange.
  destruct (Game.isEnded rules (game s)), a, b; cbn; repeat split; reflexivity.
Qed.

(** The game goes on: the status stays, the requested events are emitted in
    order and the timer is started afresh. *)
Lemma onStateChange_running a b s :
  Game.isEnded rules (game s) = false ->
  let s' := _onStateChange rules a b s in
  status s' = status s
  /\ visited s' = visited s
  /\ emitted s' = emitted s
       ++ (if a then [EvStateChange] else [])
       ++ (if b then [EvWaitingForMove (Game.getNextPlayer rules (game s))] else [])
  /\ history s' = (if a
                  then {| events := events (history s) ++ pendingEntry (history s);
                          next := Some (Game.getFullState rules (game s)) |}
                  else history s)
  /\ moveTimer s' = {| Timer.pending := Some (Game.getMoveTimeLimit rules (game s)) |}.
Proof.
  intros He. unfold _onStateChange. rewrite He. unfold pendingEntry.
  destruct a, b; cbn; rewrite ?app_nil_r, <- ?app_assoc; repeat split; try reflexivity.
  all: destruct (next (history s)); cbn; rewrite ?app_nil_r; reflexivity.
Qed.

(** The game is over: the status becomes terminal and ["end"] is emitted;
    the history and the timer are left alone. *)
Lemma onStateChange_over a b s :
  Game.isEnded rules (game s) = true ->
  let s' := _onStateChange rules a b s in
  status s' = (if Game.isError rules (game s) then ERROR else ENDED)
  /\ visited s' = visited s ++ [status s']
  /\ emitted s' = emitted s ++ [EvEnd]
  /\ history s' = history s
  /\ moveTimer s' = moveTimer s.
Proof.
  intros He. unfold _onStateChange. rewrite He. cbn. repeat split; reflexivity.
Qed.

Lemma lifecycle_new id0 g : lifecycle (new rules id0 g).
Proof. unfold lifecycle. cbn. repeat split; reflexivity. Qed.

(** [_onStateChange] on a started session whose timer is idle. *)
Lemma lifecycle_onStateChange a b s :
  status s = STARTED ->
  visited s = [NOT_STARTED; STARTED] ->
  starts (emitted s) = 1 ->
  Timer.pending (moveTimer s) = None ->
  lifecycle (_onStateChange rules a b s).
Proof.
  intros Hst Hv Hn Ht. destruct (Game.isEnded rules (game s)) eqn:He.
  - destruct (onStateChange_over a b s He) as (H1 & H2 & H3 & _ & H5).
    destruct (onStateChange_frame a b s) as (_ & Hg & _).
    unfold lifecycle. rewrite H2, H3, H5, Hg, H1, Hv, starts_snoc, Hn, He, Ht.
    destruct (Game.isError rules (game s)) eqn:Hr; cbn; repeat split; reflexivity.
  - destruct (onStateChange_running a b s He) as (H1 & H2 & H3 & _).
    unfold lifecycle. rewrite H1, Hst, H2, H3. split; [exact Hv|].
    destruct a, b; rewrite ?app_nil_r, ?app_assoc, ?app_nil_r, ?starts_snoc, ?Hn;
      reflexivity.
Qed.

(** A session that has started and whose game is not over, or whose timer
    has a pending schedule, is in status STARTED. *)
Lemma lifecycle_started s :
  lifecycle s -> status s <> NOT_STARTED ->
  Game.isEnded rules (game s) = false \/ is_Some (Timer.pending (moveTimer s)) ->
  status s = STARTED.
Proof.
  unfold lifecycle. destruct (status s); intros H Hn Hor; try congruence.
  - destruct H as (_ & _ & Ht & He & _), Hor as [Hor|[x Hor]]; congruence.
  - destruct H as (_ & _ & Ht & He & _), Hor as [Hor|[x Hor]]; congruence.
Qed.

Lemma lifecycle_register s player playerToken :
  lifecycle s -> lifecycle (step rules s (OpRegister player playerToken)).
Proof.
  intros H. unfold step, registerNewPlayer.
  repeat (case_match; try exact H); simplify_eq; exact H.
Qed.

Lemma lifecycle_connect s player :
  lifecycle s -> lifecycle (step rules s (OpConnect player)).
Proof.
  intros H. unfold step, connect.
  destruct (playerState s !! player) as [ps|]; [|exact H].
  destruct (connectedOnce ps); [exact H|].
  match goal with |- context [negb (hasStarted rules ?x)] => set (s1 := x) end.
  destruct (hasStarted rules s1) eqn:Hs; cbn [negb andb]; [exact H|].
  case_bool_decide; [|exact H].
  apply hasStarted_false in Hs. change (status s1) with (status s) in Hs.
  unfold lifecycle in H. rewrite Hs in H. destruct H as (Hv & Ht & Hn & _).
  apply lifecycle_onStateChange; cbn.
  - reflexivity.
  - by rewrite Hv.
  - by rewrite starts_snoc, Hn.
  - exact Ht.
Qed.

Lemma lifecycle_move s player mv elapsed :
  lifecycle s -> lifecycle (step rules s (OpMove player mv elapsed)).
Proof.
  intros H. unfold step, GameInstance.move.
  destruct (hasStarted rules s) eqn:Hs; cbn [negb]; [|exact H].
  destruct (Game.isEnded rules (game s)) eqn:He; cbn [orb]; [exact H|].
  destruct (Game.isValidMove rules (game s) player mv); cbn [negb]; [|exact H].
  apply hasStarted_true in Hs.
  pose proof (lifecycle_started s H Hs (or_introl He)) as Hst.
  unfold lifecycle in H. rewrite Hst in H. destruct H as (Hv & Hn).
  destruct (Timer.stop elapsed (moveTimer s)) as [moveTime tm] eqn:Hstop. cbn [snd].
  assert (Timer.pending tm = None) as Htm.
  { unfold Timer.stop in Hstop. destruct (Timer.pending (moveTimer s)); by simplify_eq. }
  apply lifecycle_onStateChange; cbn.
  - exact Hst.
  - exact Hv.
  - by rewrite starts_snoc, Hn.
  - exact Htm.
Qed.

Lemma lifecycle_timerFire s :
  lifecycle s -> lifecycle (step rules s OpTimerFire).
Proof.
  intros H. unfold step, timerFire, Timer.fire.
  destruct (Timer.pending (moveTimer s)) as [d|] eqn:Hp; [|exact H].
  assert (status s = STARTED) as Hst.
  { apply lifecycle_started; [exact H| |right; by rewrite Hp].
    intros Hn. unfold lifecycle in H. rewrite Hn in H. destruct H as (_ & Ht & _).
    congruence. }
  unfold lifecycle in H. rewrite Hst in H. destruct H as (Hv & Hn).
  unfold _onMoveTimeout. cbn.
  destruct (Game.onMoveTimeout rules (game s)) as [changed g]. destruct changed.
  - apply lifecycle_onStateChange; cbn; done.
  - unfold lifecycle. cbn. rewrite Hst. done.
Qed.

Lemma lifecycle_step s op : lifecycle s -> lifecycle (step rules s op).
Proof.
  destruct op; auto using lifecycle_register, lifecycle_connect, lifecycle_move,
    lifecycle_timerFire.
Qed.

Lemma lifecycle_run id0 g ops : lifecycle (run rules ops (new rules id0 g)).
Proof. apply run_invariant; [apply lifecycle_step | apply lifecycle_new]. Qed.

(** Every call only appends to the log of assigned statuses. *)
Lemma visited_onStateChange a b s :
  visited s `prefix_of` visited (_onStateChange rules a b s).
Proof.
  destruct (Game.isEnded rules (game s)) eqn:He.
  - destruct (onStateChange_over a b s He) as (_ & -> & _). by eexists.
  - destruct (onStateChange_running a b s He) as (_ & -> & _). reflexivity.
Qed.

Lemma visited_step s op : visited s `prefix_of` visited (step rules s op).
Proof.
  destruct op as [player playerToken|player|player mv elapsed|].
  - unfold step, registerNewPlayer. repeat case_match; simplify_eq; reflexivity.
  - unfold step, connect. repeat case_match; simplify_eq; try reflexivity.
    etrans; [|apply visited_onStateChange]. cbn. by eexists.
  - unfold step, GameInstance.move. repeat case_match; simplify_eq; try reflexivity.
    cbn [snd]. etrans; [|apply visited_onStateChange]. reflexivity.
  - unfold step, timerFire, _onMoveTimeout. repeat case_match; simplify_eq; try reflexivity.
    etrans; [|apply visited_onStateChange]. reflexivity.
Qed.

Lemma visited_run ops s : visited s `prefix_of` visited (run rules ops s).
Proof.
  revert s. induction ops as [|op ops IH]; intros s; [reflexivity|].
  rewrite run_cons. etrans; [apply visited_step | apply IH].
Qed.

End Lifecycle.

(** ** Status, start and end *)
Section Status.

Variable rules : Game.t.
Implicit Types s : GameInstance.t rules.

(** C4: from the constructor on, whatever calls arrive (registrations,
    connections, moves, timer fires), the statuses assigned to the session,
    in order, form a prefix of NOT_STARTED, STARTED, ENDED or of NOT_STARTED,
    STARTED, ERROR; the current status is the last of them; later calls only
    extend that sequence; and in status ERROR the rules module reports both
    that the game is over and that it is in error. *)
Theorem status_monotonic (id0 : string) (g : Game.State rules) (ops : list (Op rules)) :
  let s := run rules ops (new rules id0 g) in
  (visited s `prefix_of` [NOT_STARTED; STARTED; ENDED]
   \/ visited s `prefix_of` [NOT_STARTED; STARTED; ERROR])
  /\ last (visited s) = Some (status s)
  /\ (forall more, visited s `prefix_of` visited (run rules more s))
  /\ (status s = ERROR ->
      Game.isEnded rules (game s) = true /\ Game.isError rules (game s) = true).
Proof.
  cbn zeta. pose proof (lifecycle_run rules id0 g ops) as H.
  set (s := run rules ops (new rules id0 g)) in *.
  split; [|split; [|split]].
  - unfold lifecycle in H. destruct (status s).
    + destruct H as (-> & _). left. by exists [STARTED; ENDED].
    + destruct H as (-> & _). left. by exists [ENDED].
    + destruct H as (-> & _). left. reflexivity.
    + destruct H as (-> & _). right. reflexivity.
  - unfold lifecycle in H. destruct (status s); destruct H as (-> & _); reflexivity.
  - intros more. apply visited_run.
  - intros Hst. unfold lifecycle in H. rewrite Hst in H. tauto.
Qed.

(** After [connect] has returned, the player is marked as connected. *)
Lemma connect_marks s player s1 :
  connect rules player s = Normal s1 ->
  playerState s1 !! player = Some {| connectedOnce := true |}
  /\ connectedPlayerCount s <= connectedPlayerCount s1 <= S (connectedPlayerCount s).
Proof.
  unfold connect. destruct (playerState s !! player) as [ps|] eqn:Hp; [|discriminate].
  destruct ps as [c]. destruct c; cbn.
  - intros [= <-]. split; [exact Hp | lia].
  - match goal with |- context [negb (hasStarted rules ?x)] => set (s0 := x) end.
    destruct (negb (hasStarted rules s0) && _); intros [= <-].
    + match goal with |- context [_onStateChange rules ?a ?b ?x] =>
        destruct (onStateChange_frame rules a b x) as (_ & _ & _ & -> & _ & ->) end.
      cbn. rewrite lookup_insert_eq. split; [reflexivity | lia].
    + cbn. rewrite lookup_insert_eq. split; [reflexivity | lia].
Qed.

(** C8: [connect] for a player that has connected before returns at once
    and changes nothing; for a registered player, a second [connect] right
    after the first changes nothing, so the two calls together raise
    [connectedPlayerCount] by at most one; and over any sequence of calls
    from the constructor on, ["start"] is emitted at most once. *)
Theorem connect_idempotent :
  (forall s player ps,
     playerState s !! player = Some ps -> connectedOnce ps = true ->
     connect rules player s = Normal s)
  /\ (forall s player,
        is_Some (playerState s !! player) ->
        exists s1,
          connect rules player s = Normal s1
          /\ connect rules player s1 = Normal s1
          /\ connectedPlayerCount s <= connectedPlayerCount s1 <= S (connectedPlayerCount s))
  /\ (forall id0 g ops, starts (emitted (run rules ops (new rules id0 g))) <= 1).
Proof.
  split; [|split].
  - intros s player ps Hp Hc. unfold connect. by rewrite Hp, Hc.
  - intros s player Hreg.
    destruct (connect_returns rules s player Hreg) as [s1 Hs1]. exists s1.
    destruct (connect_marks s player s1 Hs1) as [Hm Hle].
    split; [exact Hs1|]. split; [|exact Hle].
    unfold connect. by rewrite Hm.
  - intros id0 g ops. pose proof (lifecycle_run rules id0 g ops) as H.
    unfold lifecycle in H.
    destruct (status (run rules ops (new rules id0 g)));
      [destruct H as (_ & _ & -> & _) | destruct H as (_ & ->)
      | destruct H as (_ & -> & _) | destruct H as (_ & -> & _)]; lia.
Qed.

(** Once the game is over for the session, no call brings it back. *)
Lemma terminal_step s op : terminal s -> terminal (step rules s op).
Proof.
  intros (Hst & He & Ht).
  assert (hasStarted rules s = true) as Hs.
  { apply hasStarted_true. destruct Hst; congruence. }
  destruct op as [player playerToken|player|player mv elapsed|].
  - unfold step, registerNewPlayer. repeat case_match; simplify_eq; by split.
  - unfold step, connect. destruct (playerState s !! player) as [ps|]; [|by split].
    destruct (connectedOnce ps); [by split|].
    match goal with |- context [negb (hasStarted rules ?x)] =>
      change (hasStarted rules x) with (hasStarted rules s) end.
    rewrite Hs. cbn [negb andb]. by split.
  - unfold step, GameInstance.move. rewrite Hs, He. cbn. by split.
  - unfold step, timerFire, Timer.fire. rewrite Ht. by split.
Qed.

Lemma terminal_move s player mv elapsed :
  terminal s -> GameInstance.move rules player mv elapsed s = (Some false, s).
Proof.
  intros (Hst & He & Ht). unfold GameInstance.move.
  assert (hasStarted rules s = true) as ->.
  { apply hasStarted_true. destruct Hst; congruence. }
  by rewrite He.
Qed.

(** C2 (as amended): a valid move of a started game after which the rules
    module reports the game over returns [true]; ["move"] is emitted with the
    player and the payload, then ["end"]; the status becomes ENDED, or ERROR
    when the rules module reports an error; and whatever calls follow, every
    later [move] returns [false], the value of an illegal move, and not
    [null], the value of a game that has not started. *)
Theorem winning_move s (player : Z) (mv : Game.Move rules) (elapsed : Z) :
  status s <> NOT_STARTED ->
  Game.isEnded rules (game s) = false ->
  Game.isValidMove rules (game s) player mv = true ->
  let g' := Game.move rules (game s) player mv (fst (Timer.stop elapsed (moveTimer s))) in
  Game.isEnded rules g' = true ->
  let r := GameInstance.move rules player mv elapsed s in
  fst r = Some true
  /\ emitted (snd r) = emitted s ++ [EvMove player mv; EvEnd]
  /\ status (snd r) = (if Game.isError rules g' then ERROR else ENDED)
  /\ visited (snd r) = visited s ++ [status (snd r)]
  /\ (forall ops player' mv' elapsed',
        fst (GameInstance.move rules player' mv' elapsed' (run rules ops (snd r)))
          = Some false).
Proof.
  intros Hst He Hv g' He' r.
  assert (exists tm, Timer.stop elapsed (moveTimer s) = (fst (Timer.stop elapsed (moveTimer s)), tm)
                     /\ Timer.pending tm = None) as (tm & Hstop & Htm).
  { unfold Timer.stop. destruct (Timer.pending (moveTimer s)); by eexists. }
  set (s0 := emit rules (EvMove player mv)
               (set_game rules g' (set_moveTimer rules tm s))).
  assert (r = (Some true, _onStateChange rules true true s0)) as Hr.
  { subst r. unfold GameInstance.move.
    apply hasStarted_true in Hst. rewrite Hst, He, Hv. cbn [negb orb].
    rewrite Hstop. reflexivity. }
  assert (Game.isEnded rules (game s0) = true) as He0 by exact He'.
  destruct (onStateChange_over rules true true s0 He0) as (H1 & H2 & H3 & _ & H5).
  destruct (onStateChange_frame rules true true s0) as (_ & Hg & _).
  rewrite Hr. cbn [fst snd]. split; [reflexivity|]. split; [|split; [|split]].
  - rewrite H3. cbn. by rewrite <- app_assoc.
  - rewrite H1. reflexivity.
  - rewrite H2. reflexivity.
  - intros ops player' mv' elapsed'. rewrite terminal_move; [reflexivity|].
    apply (run_invariant rules terminal); [apply terminal_step|].
    split; [|split].
    + rewrite H1. destruct (Game.isError rules (game s0)); auto.
    + rewrite Hg. exact He0.
    + rewrite H5. exact Htm.
Qed.

(** C5 (as amended): when [connect] of a registered player that has not
    connected before makes [connectedPlayerCount] equal to the player count
    in status NOT_STARTED, the session assigns STARTED, emits ["start"] and
    makes the full state the pending snapshot of the history. If the rules
    module does not report the game over, it then emits ["waitingForMove"]
    with the next player of the rules module and starts the timer with the
    move time limit, and no ["stateChange"] is emitted. If the rules module
    reports the game over already, it assigns ENDED or ERROR and emits
    ["end"] instead, and the timer is left alone. *)
Theorem connect_last_player s (player : Z) (ps : PlayerState) :
  playerState s !! player = Some ps ->
  connectedOnce ps = false ->
  status s = NOT_STARTED ->
  S (connectedPlayerCount s) = Game.getPlayerCount rules (game s) ->
  exists s',
    connect rules player s = Normal s'
    /\ connectedPlayerCount s' = S (connectedPlayerCount s)
    /\ playerState s' = <[player := {| connectedOnce := true |}]> (playerState s)
    /\ history s' = {| events := events (history s) ++ pendingEntry (history s);
                       next := Some (Game.getFullState rules (game s)) |}
    /\ (if Game.isEnded rules (game s)
        then status s' = (if Game.isError rules (game s) then ERROR else ENDED)
             /\ visited s' = visited s ++ [STARTED; status s']
             /\ emitted s' = emitted s ++ [EvStart; EvEnd]
             /\ moveTimer s' = moveTimer s
        else status s' = STARTED
             /\ visited s' = visited s ++ [STARTED]
             /\ emitted s' = emitted s
                  ++ [EvStart; EvWaitingForMove (Game.getNextPlayer rules (game s))]
             /\ moveTimer s'
                = {| Timer.pending := Some (Game.getMoveTimeLimit rules (game s)) |}).
Proof.
  intros Hp Hc Hst Hn. unfold connect. rewrite Hp, Hc.
  match goal with |- context [negb (hasStarted rules ?x)] => set (s1 := x) end.
  assert (hasStarted rules s1 = false) as -> by (by apply hasStarted_false).
  rewrite bool_decide_eq_true_2 by exact Hn. cbn [negb andb].
  set (s3 := emit rules EvStart (set_status rules STARTED s1)).
  exists (_onStateChange rules false true s3). split; [reflexivity|].
  destruct (onStateChange_frame rules false true s3) as (_ & Hg & _ & -> & _ & ->).
  split; [reflexivity|]. split; [reflexivity|].
  assert (history s3 = {| events := events (history s) ++ pendingEntry (history s);
                          next := Some (Game.getFullState rules (game s)) |}) as Hh.
  { subst s3 s1. unfold pendingEntry. cbn.
    destruct (next (history s)); cbn; by rewrite ?app_nil_r. }
  change (game s3) with (game s) in *.
  destruct (Game.isEnded rules (game s)) eqn:He.
  - destruct (onStateChange_over rules false true s3 He) as (H1 & H2 & H3 & H4 & H5).
    split; [by rewrite H4|].
    rewrite H2, H3, H5, H1. change (game s3) with (game s). cbn.
    rewrite <- !app_assoc. done.
  - destruct (onStateChange_running rules false true s3 He) as (H1 & H2 & H3 & H4 & H5).
    split; [by rewrite H4|].
    rewrite H1, H2, H3, H5. change (game s3) with (game s). cbn.
    rewrite <- !app_assoc. done.
Qed.

(** C9: when the move timer fires, the pending schedule is consumed and the
    rules module handles the timeout. If it reports no change, nothing is
    emitted, the history and the status stay as they were and the timer is
    not started again. If it reports a change and the game is not over,
    ["stateChange"] is emitted (which records the state in the history),
    ["waitingForMove"] follows only if the next player differs from the one
    who timed out, and the timer is started again. If it reports a change
    and the game is over, the status becomes terminal and ["end"] is
    emitted. *)
Theorem timer_fire s (d : Z) :
  Timer.pending (moveTimer s) = Some d ->
  let oldNextPlayer := Game.getNextPlayer rules (game s) in
  let changed := fst (Game.onMoveTimeout rules (game s)) in
  let g := snd (Game.onMoveTimeout rules (game s)) in
  let s' := timerFire rules s in
  game s' = g
  /\ (changed = false ->
      emitted s' = emitted s /\ history s' = history s /\ status s' = status s
      /\ visited s' = visited s /\ Timer.pending (moveTimer s') = None)
  /\ (changed = true -> Game.isEnded rules g = false ->
      emitted s' = emitted s ++ EvStateChange ::
        (if bool_decide (Game.getNextPlayer rules g = oldNextPlayer) then []
         else [EvWaitingForMove (Game.getNextPlayer rules g)])
      /\ history s' = {| events := events (history s) ++ pendingEntry (history s);
                         next := Some (Game.getFullState rules g) |}
      /\ status s' = status s
      /\ moveTimer s' = {| Timer.pending := Some (Game.getMoveTimeLimit rules g) |})
  /\ (changed = true -> Game.isEnded rules g = true ->
      emitted s' = emitted s ++ [EvEnd]
      /\ history s' = history s
      /\ status s' = (if Game.isError rules g then ERROR else ENDED)
      /\ Timer.pending (moveTimer s') = None).
Proof.
  intros Hp oldNextPlayer changed g s'.
  subst s' changed g oldNextPlayer.
  unfold timerFire, Timer.fire. rewrite Hp. unfold _onMoveTimeout. cbn.
  destruct (Game.onMoveTimeout rules (game s)) as [changed g]. cbn [fst snd].
  destruct changed.
  - match goal with |- context [_onStateChange rules ?a ?b ?x] =>
      set (b0 := b); set (s0 := x) end.
    destruct (onStateChange_frame rules true b0 s0) as (_ & Hg & _).
    split; [exact Hg|]. split; [discriminate|].
    split; intros _ He.
    + destruct (onStateChange_running rules true b0 s0 He) as (H1 & H2 & H3 & H4 & H5).
      rewrite H1, H3, H4, H5. subst b0. cbn.
      repeat split. case_bool_decide; reflexivity.
    + destruct (onStateChange_over rules true b0 s0 He) as (H1 & H2 & H3 & H4 & H5).
      rewrite H1, H3, H4, H5. repeat split.
  - cbn. repeat split; discriminate.
Qed.

End Status.

(** ** Registration *)
Section Registration.

Variable rules : Game.t.
Implicit Types s : GameInstance.t rules.
Implicit Types m : gmap Z PlayerState.

(** The slot the loop stops at is free, and every slot it passed is taken. *)
Lemma freeSlot_lowest fuel m (p r : Z) :
  freeSlot fuel m p = Some r ->
  m !! r = None /\ (p <= r)%Z /\ forall q, (p <= q < r)%Z -> is_Some (m !! q).
Proof.
  revert p. induction fuel as [|fuel IH]; intros p; cbn; [discriminate|].
  destruct (m !! p) as [x|] eqn:Hp.
  - intros Hr. destruct (IH _ Hr) as (Hfree & Hle & Hlow).
    split; [exact Hfree|]. split; [lia|].
    intros q Hq. destruct (decide (q = p)) as [->|Hne]; [by rewrite Hp|].
    apply Hlow. lia.
  - intros [= <-]. split; [exact Hp|]. split; [lia|]. intros q Hq. lia.
Qed.

(** The loop never looks below the slot it is at. *)
Lemma freeSlot_delete fuel m (p q : Z) :
  (q < p)%Z -> freeSlot fuel (delete q m) p = freeSlot fuel m p.
Proof.
  revert p. induction fuel as [|fuel IH]; intros p Hq; cbn; [reflexivity|].
  rewrite lookup_delete_ne by lia. destruct (m !! p); [|reflexivity].
  apply IH. lia.
Qed.

(** With more fuel than there are records the loop exits. *)
Lemma freeSlot_terminates fuel m (p : Z) :
  size m < fuel -> is_Some (freeSlot fuel m p).
Proof.
  revert m p. induction fuel as [|fuel IH]; intros m p Hsz; [lia|]. cbn.
  destruct (m !! p) as [x|] eqn:Hp; [|by eexists].
  rewrite <- (freeSlot_delete fuel m (p + 1) p) by lia.
  apply IH. rewrite map_size_delete, Hp.
  assert (size m <> 0) by (apply map_size_ne_0_lookup_2 with p; by eexists).
  cbn. lia.
Qed.

(** [registerNewPlayer] always returns: it does not throw, and the fuel of
    its loop suffices. *)
Lemma registerNewPlayer_returns s player playerToken :
  exists r, registerNewPlayer rules player playerToken s = Normal r.
Proof.
  unfold registerNewPlayer.
  destruct (match requestedSlot player with Some _ => _ | None => _ end); [by eexists|].
  destruct (bool_decide _); [by eexists|].
  destruct (requestedSlot player) as [q|]; [by eexists|].
  destruct (freeSlot_terminates (S (size (playerState s))) (playerState s) 1) as [p ->];
    [lia | by eexists].
Qed.





End Registration.

(** ** The history log *)
Section HistoryLog.

Variable rules : Game.t.
Implicit Types s : GameInstance.t rules.
Implicit Types l : list (HistEvent rules).

Lemma coalesced_snoc_move l player mv :
  coalesced (l ++ [HistMove player mv]) = coalesced l.
Proof.
  induction l as [|e l IH]; [reflexivity|].
  destruct l as [|e' l]; [by destruct e|].
  cbn [app coalesced] in *. destruct e, e'; try reflexivity; exact IH.
Qed.

Lemma coalesced_snoc_move_state l player mv fullState :
  coalesced (l ++ [HistMove player mv; HistState fullState]) = coalesced l.
Proof.
  induction l as [|e l IH]; [reflexivity|].
  destruct l as [|e' l]; [by destruct e|].
  cbn [app coalesced] in *. destruct e, e'; try reflexivity; exact IH.
Qed.

(** Pushing the pending snapshot and then a move keeps a log that ends in a
    move free of neighbouring snapshots. *)
Lemma coalesced_push l (h : History rules) player mv :
  afterMove l -> coalesced l = true ->
  coalesced (l ++ pendingEntry h ++ [HistMove player mv]) = true.
Proof.
  intros Hl Hc. rewrite app_assoc, coalesced_snoc_move.
  unfold pendingEntry. destruct (next h) as [fullState|]; [|by rewrite app_nil_r].
  destruct Hl as [->|(l' & p & m & ->)]; [reflexivity|].
  rewrite <- app_assoc. cbn [app]. rewrite coalesced_snoc_move_state.
  by rewrite coalesced_snoc_move in Hc.
Qed.

(** What the listeners of the constructor do to the history. *)
Lemma history_emit_state s :
  history (emit rules EvStateChange s) = history (emit rules EvStart s)
  /\ history (emit rules EvStart s)
     = {| events := events (history s) ++ pendingEntry (history s);
          next := Some (Game.getFullState rules (game s)) |}.
Proof.
  unfold pendingEntry. cbn. destruct (next (history s)); by rewrite ?app_nil_r.
Qed.

Lemma history_emit_move s player mv :
  history (emit rules (EvMove player mv) s)
  = {| events := events (history s) ++ pendingEntry (history s) ++ [HistMove player mv];
       next := None |}.
Proof.
  unfold pendingEntry. cbn. destruct (next (history s)); by rewrite <- ?app_assoc.
Qed.

Lemma events_onStateChange a b s :
  events (history s) `prefix_of` events (history (_onStateChange rules a b s)).
Proof.
  destruct (Game.isEnded rules (game s)) eqn:He.
  - destruct (onStateChange_over rules a b s He) as (_ & _ & _ & -> & _). reflexivity.
  - destruct (onStateChange_running rules a b s He) as (_ & _ & _ & -> & _).
    destruct a; [by eexists | reflexivity].
Qed.

(** Every call only appends to the log. *)
Lemma events_step s op : events (history s) `prefix_of` events (history (step rules s op)).
Proof.
  destruct op as [player playerToken|player|player mv elapsed|].
  - unfold step, registerNewPlayer. repeat case_match; simplify_eq; reflexivity.
  - unfold step, connect.
    destruct (playerState s !! player) as [ps|]; [|reflexivity].
    destruct (connectedOnce ps); [reflexivity|].
    match goal with |- context [negb (hasStarted rules ?x)] => set (s1 := x) end.
    destruct (negb (hasStarted rules s1) && _); [|reflexivity].
    etrans; [|apply events_onStateChange].
    destruct (history_emit_state (set_status rules STARTED s1)) as [_ ->].
    cbn. by eexists.
  - unfold step, GameInstance.move.
    destruct (hasStarted rules s); cbn [negb]; [|reflexivity].
    destruct (Game.isEnded rules (game s) || _); [reflexivity|].
    destruct (Timer.stop elapsed (moveTimer s)) as [moveTime tm]. cbn [snd].
    etrans; [|apply events_onStateChange].
    rewrite history_emit_move. cbn. by eexists.
  - unfold step, timerFire, _onMoveTimeout. repeat case_match; simplify_eq; try reflexivity.
    etrans; [|apply events_onStateChange]. reflexivity.
Qed.

Lemma events_run ops s : events (history s) `prefix_of` events (history (run rules ops s)).
Proof.
  revert s. induction ops as [|op ops IH]; intros s; [reflexivity|].
  rewrite run_cons. etrans; [apply events_step | apply IH].
Qed.

(** A call other than a timer fire keeps the log free of neighbouring
    snapshots and ending in a move. *)
Lemma coalesced_step s op :
  isTimerFire op = false ->
  lifecycle s -> afterMove (events (history s)) -> coalesced (events (history s)) = true ->
  afterMove (events (history (step rules s op)))
  /\ coalesced (events (history (step rules s op))) = true.
Proof.
  intros Hop Hl Ha Hc.
  destruct op as [player playerToken|player|player mv elapsed|]; [| | |discriminate].
  - unfold step, registerNewPlayer. repeat case_match; simplify_eq; by split.
  - unfold step, connect.
    destruct (playerState s !! player) as [ps|]; [|by split].
    destruct (connectedOnce ps); [by split|].
    match goal with |- context [negb (hasStarted rules ?x)] => set (s1 := x) end.
    destruct (hasStarted rules s1) eqn:Hs; cbn [negb andb]; [by split|].
    case_bool_decide; [|by split].
    apply hasStarted_false in Hs. change (status s1) with (status s) in Hs.
    unfold lifecycle in Hl. rewrite Hs in Hl. destruct Hl as (_ & _ & _ & He & Hn).
    set (s3 := emit rules EvStart (set_status rules STARTED s1)).
    assert (events (history s3) = []) as H3.
    { subst s3 s1. cbn. by rewrite Hn. }
    assert (events (history (_onStateChange rules false true s3)) = []) as ->.
    { destruct (Game.isEnded rules (game s3)) eqn:He3.
      - by destruct (onStateChange_over rules false true s3 He3) as (_ & _ & _ & -> & _).
      - by destruct (onStateChange_running rules false true s3 He3) as (_ & _ & _ & -> & _). }
    split; [by left | reflexivity].
  - unfold step, GameInstance.move.
    destruct (hasStarted rules s); cbn [negb]; [|by split].
    destruct (Game.isEnded rules (game s) || _); [by split|].
    destruct (Timer.stop elapsed (moveTimer s)) as [moveTime tm]. cbn [snd].
    match goal with |- context [_onStateChange rules true true ?x] => set (s0 := x) end.
    assert (history s0
            = {| events := events (history s)
                             ++ pendingEntry (history s) ++ [HistMove player mv];
                 next := None |}) as H0.
    { subst s0. by rewrite history_emit_move. }
    assert (events (history (_onStateChange rules true true s0))
            = events (history s) ++ pendingEntry (history s) ++ [HistMove player mv]) as ->.
    { destruct (Game.isEnded rules (game s0)) eqn:He0.
      - destruct (onStateChange_over rules true true s0 He0) as (_ & _ & _ & -> & _).
        by rewrite H0.
      - destruct (onStateChange_running rules true true s0 He0) as (_ & _ & _ & -> & _).
        rewrite H0. cbn. by rewrite app_nil_r. }
    split; [|by apply coalesced_push].
    right. exists (events (history s) ++ pendingEntry (history s)), player, mv.
    by rewrite <- app_assoc.
Qed.

(** C1 (as amended): the listener of ["start"] and ["stateChange"] pushes
    a pending snapshot onto the log before it stores the new one, and the
    listener of ["move"] pushes a pending snapshot right before the move
    entry and clears it; calls only append to the log. So as long as no
    timer fire occurs, the log of a session never holds two neighbouring
    state snapshots. (A timer fire that emits ["stateChange"] while a
    snapshot is pending does put two snapshots next to each other.) *)
Theorem history_log (id0 : string) (g : Game.State rules) (ops : list (Op rules)) :
  noTimerFire ops = true ->
  let s := run rules ops (new rules id0 g) in
  coalesced (events (history s)) = true
  /\ (forall more, events (history s) `prefix_of` events (history (run rules more s)))
  /\ (forall s0 : GameInstance.t rules,
        history (emit rules EvStateChange s0) = history (emit rules EvStart s0)
        /\ history (emit rules EvStart s0)
           = {| events := events (history s0) ++ pendingEntry (history s0);
                next := Some (Game.getFullState rules (game s0)) |})
  /\ (forall (s0 : GameInstance.t rules) player mv,
        history (emit rules (EvMove player mv) s0)
        = {| events := events (history s0)
                         ++ pendingEntry (history s0) ++ [HistMove player mv];
             next := None |}).
Proof.
  intros Hops s. split; [|split; [|split]].
  - subst s.
    enough (forall s0, lifecycle s0 -> afterMove (events (history s0)) ->
              coalesced (events (history s0)) = true ->
              coalesced (events (history (run rules ops s0))) = true) as Hrun.
    { apply Hrun; [apply lifecycle_new | by left | reflexivity]. }
    induction ops as [|op ops IH]; intros s0 Hl Ha Hc; [exact Hc|].
    cbn in Hops. apply andb_true_iff in Hops as [Hop Hops].
    apply negb_true_iff in Hop. rewrite run_cons.
    destruct (coalesced_step s0 op Hop Hl Ha Hc) as [Ha' Hc'].
    apply IH; [exact Hops | by apply lifecycle_step | exact Ha' | exact Hc'].
  - intros more. apply events_run.
  - apply history_emit_state.
  - apply history_emit_move.
Qed.

End HistoryLog.

(** ** Sessions of the small rules module *)
Section Runs.

Import Toy.

(** The two-player scenario: nothing starts while one player is missing;
    the second connection starts the game once. *)
Example two_player_session :
  status (session fresh lobby) = NOT_STARTED
  /\ emitted (session fresh lobby) = []
  /\ status (session fresh seat) = STARTED
  /\ emitted (session fresh seat) = [EvStart; EvWaitingForMove 1].
Proof. vm_compute. by repeat split. Qed.

(** A move out of turn is rejected and changes nothing. *)
Example illegal_move :
  GameInstance.move rules 2 Pass 3 (session fresh seat) = (Some false, session fresh seat).
Proof. vm_compute. reflexivity. Qed.

(** A third registration fails: the room is full. *)
Example room_full :
  registerNewPlayer rules None "cc" (session fresh seat) = Normal (None, session fresh seat).
Proof. vm_compute. reflexivity. Qed.

(** C1, counterexample: two timer fires in a row, each changing the state,
    leave two neighbouring snapshots in the log; and between the two moves
    of the second run the log holds three snapshots. *)
Lemma history_neighbouring_snapshots :
  noTimerFire (seat ++ [tick; tick]) = false
  /\ events (history (session fresh (seat ++ [tick; tick])))
     = [@HistState rules (position 1 0); @HistState rules (position 1 1)]
  /\ coalesced (events (history (session fresh (seat ++ [tick; tick])))) = false
  /\ events (history (session fresh (seat ++ [play 1 Pass 5; tick; tick; play 1 Pass 5])))
     = [@HistState rules (position 1 0); @HistMove rules 1 Pass;
        @HistState rules (position 2 0); @HistState rules (position 2 1); @HistState rules (position 1 0);
        @HistMove rules 1 Pass].
Proof. vm_compute. by repeat split. Qed.

(** C1, witness: a run of connections and moves. *)
Lemma history_log_witness :
  coalesced (events (history (session fresh (seat ++ [play 1 Pass 5; play 2 Pass 7])))) = true.
Proof.
  pose proof (history_log rules "g1" fresh (seat ++ [play 1 Pass 5; play 2 Pass 7])) as H.
  cbv zeta in H. specialize (H ltac:(by vm_compute)). exact (proj1 H).
Defined.

(** C2, counterexample: after the winning move the status is ENDED and a
    further move returns [false], which is not the [null] a session that has
    not started returns. *)
Lemma move_after_end_returns_false :
  let s := session fresh (seat ++ [play 1 Win 5]) in
  status s = ENDED
  /\ fst (GameInstance.move rules 2 Pass 0 s) = Some false
  /\ fst (GameInstance.move rules 2 Pass 0 (session fresh lobby)) = None
  /\ fst (GameInstance.move rules 2 Pass 0 s)
     <> fst (GameInstance.move rules 2 Pass 0 (session fresh lobby)).
Proof. vm_compute. by repeat split. Qed.

(** C2, witness: player 1 wins the seated game. *)
Lemma winning_move_witness :
  let s := session fresh seat in
  let r := GameInstance.move rules 1 Win 5 s in
  fst r = Some true
  /\ emitted (snd r) = emitted s ++ [@EvMove rules 1 Win; EvEnd]
  /\ status (snd r) = ENDED
  /\ (forall ops player' mv' elapsed',
        fst (GameInstance.move rules player' mv' elapsed' (run rules ops (snd r)))
          = Some false).
Proof.
  cbv zeta.
  pose proof (winning_move rules (session fresh seat) 1 Win 5) as H. cbv zeta in H.
  specialize (H ltac:(by vm_compute) ltac:(by vm_compute) ltac:(by vm_compute)
                ltac:(by vm_compute)).
  destruct H as (H1 & H2 & H3 & _ & H5).
  split; [exact H1|]. split; [exact H2|]. split; [|exact H5].
  vm_compute in H3 |- *. exact H3.
Defined.

(** C3, counterexample: a session in status ERROR whose summary has no
    [winner]. *)
Lemma getInfo_error_without_winner :
  let s := session fresh (seat ++ [play 1 Crash 5]) in
  status s = ERROR /\ Info.winner (getInfo rules s) = None.
Proof. vm_compute. by split. Qed.

(** C5, counterexample: the last player connects to a game that is over
    from the start; the status ends up ENDED, ["end"] follows ["start"], no
    ["waitingForMove"] is emitted and the timer is not started. *)
Lemma connect_last_player_game_over :
  let s := session finished lobby in
  playerState s !! 2%Z = Some {| connectedOnce := false |}
  /\ status s = NOT_STARTED
  /\ S (connectedPlayerCount s) = Game.getPlayerCount rules (game s)
  /\ exists s', connect rules 2 s = Normal s'
       /\ status s' = ENDED
       /\ status s' <> STARTED
       /\ emitted s' = [EvStart; EvEnd]
       /\ Timer.pending (moveTimer s') = None.
Proof.
  cbv zeta. split; [by vm_compute|]. split; [by vm_compute|]. split; [by vm_compute|].
  eexists. split; [vm_compute; reflexivity|]. vm_compute. by repeat split.
Qed.

(** C5, witness: the last player connects to a fresh game. *)
Lemma connect_last_player_witness :
  exists s', connect rules 2 (session fresh lobby) = Normal s'
    /\ status s' = STARTED
    /\ emitted s' = [EvStart; EvWaitingForMove 1]
    /\ history s' = @Build_History rules [] (Some fresh)
    /\ moveTimer s' = {| Timer.pending := Some 1000%Z |}.
Proof.
  pose proof (connect_last_player rules (session fresh lobby) 2
                {| connectedOnce := false |}) as H.
  specialize (H ltac:(by vm_compute) ltac:(by vm_compute) ltac:(by vm_compute)
                ltac:(by vm_compute)).
  destruct H as (s' & Hc & _ & _ & Hh & H). exists s'. split; [exact Hc|].
  vm_compute in Hh, H |- *. destruct H as (Hst & _ & He & Ht). by repeat split.
Defined.

(** C9, witness: the first timeout of a turn costs a strike and leaves the
    turn with the same player, so ["stateChange"] is emitted without
    ["waitingForMove"] and the timer is started again. *)
Lemma timer_fire_witness :
  let s := session fresh seat in
  let s' := timerFire rules s in
  game s' = position 1 1
  /\ emitted s' = emitted s ++ [EvStateChange]
  /\ history s' = @Build_History rules [@HistState rules fresh] (Some (position 1 1))
  /\ status s' = STARTED
  /\ moveTimer s' = {| Timer.pending := Some 1000%Z |}.
Proof.
  cbv zeta.
  pose proof (timer_fire rules (session fresh seat) 1000) as H. cbv zeta in H.
  specialize (H ltac:(by vm_compute)). destruct H as (Hg & _ & Hc & _).
  specialize (Hc ltac:(by vm_compute) ltac:(by vm_compute)).
  destruct Hc as (He & Hh & Hst & Ht).
  vm_compute in Hg, He, Hh, Hst, Ht |- *. by repeat split.
Defined.

End Runs.

(** ** The registry: slots, tokens and counters *)
Section Registry.

Variable rules : Game.t.
Implicit Types s : GameInstance.t rules.

Lemma requestedSlot_nonzero (player : option Z) (p : Z) :
  requestedSlot player = Some p -> p <> 0%Z.
Proof.
  unfold requestedSlot. destruct player as [q|]; [|discriminate].
  case_bool_decide; [discriminate|]. by intros [= <-].
Qed.

Lemma onStateChange_started a b s :
  status s <> NOT_STARTED -> status (_onStateChange rules a b s) <> NOT_STARTED.
Proof.
  intros Hs. destruct (Game.isEnded rules (game s)) eqn:He.
  - destruct (onStateChange_over rules a b s He) as (-> & _).
    by destruct (Game.isError rules (game s)).
  - by destruct (onStateChange_running rules a b s He) as (-> & _).
Qed.

(** What a call does to the registry and to the fact of being started:
    nothing, a registration of one new slot, or the first connection of one
    registered player, which starts the session exactly when it makes the
    number of connected players equal to the player count. *)
Lemma registry_step s op :
  let s' := step rules s op in
  (playerState s' = playerState s
   /\ playerTokenTable s' = playerTokenTable s
   /\ currentPlayerCount s' = currentPlayerCount s
   /\ connectedPlayerCount s' = connectedPlayerCount s
   /\ (lifecycle s -> status s' = NOT_STARTED <-> status s = NOT_STARTED))
  \/ (exists player playerToken p,
        op = OpRegister player playerToken
        /\ registerNewPlayer rules player playerToken s = Normal (Some (p, playerToken), s')
        /\ p <> 0%Z
        /\ playerState s !! p = None
        /\ playerState s' = <[p := {| connectedOnce := false |}]> (playerState s)
        /\ playerTokenTable s' = <[playerToken := p]> (playerTokenTable s)
        /\ currentPlayerCount s' = S (currentPlayerCount s)
        /\ connectedPlayerCount s' = connectedPlayerCount s
        /\ status s' = status s /\ game s' = game s)
  \/ (exists p,
        op = OpConnect p
        /\ playerState s !! p = Some {| connectedOnce := false |}
        /\ playerState s' = <[p := {| connectedOnce := true |}]> (playerState s)
        /\ playerTokenTable s' = playerTokenTable s
        /\ currentPlayerCount s' = currentPlayerCount s
        /\ connectedPlayerCount s' = S (connectedPlayerCount s)
        /\ game s' = game s
        /\ (status s' = NOT_STARTED <->
            status s = NOT_STARTED
            /\ S (connectedPlayerCount s) <> Game.getPlayerCount rules (game s))).
Proof.
  destruct op as [player playerToken|player|player mv elapsed|]; cbn zeta.
  - unfold step, registerNewPlayer.
    destruct (requestedSlot player) as [q|] eqn:Hreq.
    + case_bool_decide as Hq; [by left|].
      case_bool_decide; [by left|].
      right; left. exists player, playerToken, q. unfold registerNewPlayer.
      rewrite Hreq. rewrite !bool_decide_eq_false_2 by done.
      repeat split; try reflexivity.
      * by apply requestedSlot_nonzero in Hreq.
      * destruct (playerState s !! q) eqn:E; [|reflexivity]. destruct Hq. by eexists.
    + case_bool_decide; [by left|].
      destruct (freeSlot (S (size (playerState s))) (playerState s) 1) as [p|] eqn:Hp;
        [|by left].
      destruct (freeSlot_lowest _ _ _ _ Hp) as (Hnone & Hle & _).
      right; left. exists player, playerToken, p. unfold registerNewPlayer.
      rewrite Hreq. repeat split; try reflexivity; [lia | exact Hnone].
  - unfold step, connect.
    destruct (playerState s !! player) as [[c]|] eqn:Hp; [|by left].
    destruct c; cbn [connectedOnce]; [by left|].
    right; right. exists player. split; [reflexivity|]. split; [exact Hp|].
    match goal with |- context [negb (hasStarted rules ?x)] => set (s1 := x) end.
    destruct (hasStarted rules s1) eqn:Hs; cbn [negb andb].
    { apply hasStarted_true in Hs. change (status s1) with (status s) in Hs.
      repeat split; try reflexivity; cbn; tauto. }
    apply hasStarted_false in Hs. change (status s1) with (status s) in Hs.
    case_bool_decide as Hn; cbn in Hn.
    + match goal with |- context [_onStateChange rules ?a ?b ?x] =>
        pose proof (onStateChange_started a b x) as Hst;
        destruct (onStateChange_frame rules a b x) as (_ & -> & -> & -> & -> & ->) end.
      repeat split; try reflexivity; try tauto.
      all: intros; exfalso; eapply Hst; [cbn; discriminate | eassumption].
    + repeat split; try reflexivity; cbn; tauto.
  - left. unfold step, GameInstance.move.
    destruct (hasStarted rules s) eqn:Hs; cbn [negb]; [|by repeat split].
    destruct (Game.isEnded rules (game s) || _); [by repeat split|].
    destruct (Timer.stop elapsed (moveTimer s)) as [moveTime tm]. cbn [snd].
    apply hasStarted_true in Hs.
    match goal with |- context [_onStateChange rules ?a ?b ?x] =>
      pose proof (onStateChange_started a b x) as Hst;
      destruct (onStateChange_frame rules a b x) as (_ & _ & -> & -> & -> & ->) end.
    repeat split; try reflexivity.
    all: intros; exfalso; first [congruence | by apply Hst].
  - left. unfold step, timerFire, Timer.fire.
    destruct (Timer.pending (moveTimer s)) as [d|] eqn:Hd; [|by repeat split].
    unfold _onMoveTimeout. cbn.
    destruct (Game.onMoveTimeout rules (game s)) as [changed g].
    assert (lifecycle s -> status s <> NOT_STARTED) as Hlive.
    { intros Hl Hns. unfold lifecycle in Hl. rewrite Hns in Hl.
      destruct Hl as (_ & Ht & _). congruence. }
    destruct changed; [|repeat split; try reflexivity; cbn; tauto].
    match goal with |- context [_onStateChange rules ?a ?b ?x] =>
      pose proof (onStateChange_started a b x) as Hst;
      destruct (onStateChange_frame rules a b x) as (_ & _ & -> & -> & -> & ->) end.
    repeat split; try reflexivity.
    all: intros; exfalso; first [by apply Hlive | apply Hst; [by apply Hlive | done]].
Qed.

Lemma tokensResolve_step s op : tokensResolve s -> tokensResolve (step rules s op).
Proof.
  intros Hs.
  destruct (registry_step s op) as
    [(Hm & Ht & _)
    |[(player & playerToken & p & _ & _ & Hp0 & _ & Hm & Ht & _)
     |(p & _ & _ & Hm & Ht & _)]];
    intros tok q; rewrite Hm, Ht.
  - apply Hs.
  - intros Hq. apply lookup_insert_Some in Hq as [[<- <-]|[Hne Hq]].
    + split; [exact Hp0|]. rewrite lookup_insert_eq. by eexists.
    + destruct (Hs tok q Hq) as [H0 Hr]. split; [exact H0|].
      apply lookup_insert_is_Some. destruct (decide (p = q)); auto.
  - intros Hq. destruct (Hs tok q Hq) as [H0 Hr]. split; [exact H0|].
    apply lookup_insert_is_Some. destruct (decide (p = q)); auto.
Qed.

(** X2: in every session built by the constructor and any calls, when
    [getPlayer] returns a player for a token, that player is registered and
    is not 0; a registration that returns a player binds its token (any
    token but the name [__proto__], which no draw of hexadecimal digits is)
    to that player and leaves what [getPlayer] returns for every other
    token alone; a token that resolves to a player keeps resolving to it
    across every call that is not a registration with the same token; and a
    name inherited from [Object.prototype] that was never issued resolves to
    an inherited member, not to [undefined]. *)
Theorem tokens_resolve (id0 : string) (g : Game.State rules) (ops : list (Op rules)) :
  let s := run rules ops (new rules id0 g) in
  (forall playerToken p,
     getPlayer rules playerToken s = Player p ->
     p <> 0%Z /\ is_Some (playerState s !! p))
  /\ (forall player playerToken r s',
        playerToken <> "__proto__" ->
        registerNewPlayer rules player playerToken s = Normal (Some r, s') ->
        r.2 = playerToken
        /\ getPlayer rules playerToken s' = Player r.1
        /\ forall other, other <> playerToken ->
             getPlayer rules other s' = getPlayer rules other s)
  /\ (forall playerToken p op,
        getPlayer rules playerToken s = Player p ->
        (forall player, op <> OpRegister player playerToken) ->
        getPlayer rules playerToken (step rules s op) = Player p)
  /\ (forall name,
        name ∈ objectPrototypeNames ->
        playerTokenTable s !! name = None ->
        getPlayer rules name s = InheritedMember name).
Proof.
  cbn zeta. set (s := run rules ops (new rules id0 g)).
  assert (forall (s0 : GameInstance.t rules) tok p,
            getPlayer rules tok s0 = Player p <->
            tok <> "__proto__" /\ playerTokenTable s0 !! tok = Some p) as Hown.
  { intros s0 tok p. unfold getPlayer. case_bool_decide as Hproto.
    - split; [discriminate | by intros [? _]].
    - destruct (playerTokenTable s0 !! tok) as [q|].
      + split; [by intros [= ->] | by intros [_ [= ->]]].
      + case_bool_decide; split; try discriminate; by intros [_ ?]. }
  split; [|split; [|split]].
  - intros tok p Hp. apply Hown in Hp as [_ Hp]. revert tok p Hp.
    apply (run_invariant rules tokensResolve); [apply tokensResolve_step|].
    intros tok p. cbn. by rewrite lookup_empty.
  - intros player playerToken r s' Hproto Hr. unfold registerNewPlayer in Hr.
    destruct (match requestedSlot player with Some _ => _ | None => _ end);
      [discriminate|].
    destruct (bool_decide _); [discriminate|].
    destruct (match requestedSlot player with Some _ => _ | None => _ end) as [p|];
      [|discriminate].
    injection Hr as <- <-. cbn [fst snd].
    split; [reflexivity|]. split.
    + apply Hown. split; [exact Hproto|]. cbn. by rewrite lookup_insert_eq.
    + intros other Hne. unfold getPlayer. cbn. by rewrite lookup_insert_ne.
  - intros playerToken p op Hp Hop. apply Hown. apply Hown in Hp as [Hproto Hp].
    split; [exact Hproto|].
    destruct (registry_step s op) as
      [(_ & -> & _)
      |[(player & tok & q & -> & _ & _ & _ & _ & -> & _)
       |(q & _ & _ & _ & -> & _)]]; try exact Hp.
    rewrite lookup_insert_ne; [exact Hp|]. intros <-. by apply (Hop player).
  - intros name Hin Hnone. unfold getPlayer. case_bool_decide; [reflexivity|].
    rewrite Hnone. by rewrite bool_decide_eq_true_2.
Qed.

Lemma counted_step s op : counted s -> counted (step rules s op).
Proof.
  intros [Hc Hn]. unfold counted, connectedRecords in *.
  destruct (registry_step s op) as
    [(-> & _ & -> & -> & _)
    |[(player & playerToken & p & _ & _ & _ & Hfree & -> & _ & -> & -> & _)
     |(p & _ & Hp & -> & _ & -> & -> & _)]].
  - by split.
  - split; [by rewrite map_size_insert_None, Hc|].
    rewrite map_filter_insert_not'; [exact Hn|cbn; discriminate|].
    intros y Hy. congruence.
  - split; [rewrite map_size_insert_Some; [exact Hc | by eexists]|].
    rewrite map_filter_insert_True by reflexivity.
    rewrite map_size_insert_None, Hn; [reflexivity|].
    apply map_lookup_filter_None_2. right. intros x Hx. rewrite Hp in Hx.
    injection Hx as <-. cbn. discriminate.
Qed.

(** X3: in every session built by the constructor and any calls,
    [currentPlayerCount] is the number of records in [playerState],
    [connectedPlayerCount] is the number of records with [connectedOnce]
    set, and so the connected players never outnumber the registered
    ones. *)
Theorem counters_count (id0 : string) (g : Game.State rules) (ops : list (Op rules)) :
  let s := run rules ops (new rules id0 g) in
  currentPlayerCount s = size (playerState s)
  /\ connectedPlayerCount s = size (connectedRecords (playerState s))
  /\ connectedPlayerCount s <= currentPlayerCount s.
Proof.
  cbn zeta.
  assert (counted (run rules ops (new rules id0 g))) as [Hc Hn].
  { apply (run_invariant rules counted); [apply counted_step|]. by split. }
  split; [exact Hc|]. split; [exact Hn|].
  rewrite Hc, Hn. apply map_size_filter.
Qed.

(** A registration without a requested slot in a session whose slots are 1
    to [k]: it fails when the room is full, else it hands out slot [k + 1]. *)
Lemma seated_register s (k : nat) (playerToken : string) :
  seated k s -> currentPlayerCount s = k ->
  if bool_decide (k = Game.getPlayerCount rules (game s))
  then registerNewPlayer rules None playerToken s = Normal (None, s)
  else exists s',
      registerNewPlayer rules None playerToken s
        = Normal (Some (Z.of_nat (S k), playerToken), s')
      /\ seated (S k) s' /\ currentPlayerCount s' = S k /\ game s' = game s.
Proof.
  intros Hseat Hk. unfold registerNewPlayer. cbn [requestedSlot]. rewrite Hk.
  case_bool_decide as Hfull; [reflexivity|].
  destruct (freeSlot_terminates (S (size (playerState s))) (playerState s) 1)
    as [p Hp]; [lia|].
  rewrite Hp. destruct (freeSlot_lowest _ _ _ _ Hp) as (Hnone & Hle & Hlow).
  assert (p = Z.of_nat (S k)) as ->.
  { assert (~ (1 <= p <= Z.of_nat k)%Z) as Hout.
    { intros Hin. apply Hseat in Hin as [x Hx]. congruence. }
    destruct (decide (p <= Z.of_nat (S k))%Z) as [|Hgt]; [lia|].
    assert (is_Some (playerState s !! Z.of_nat (S k))) as Hin by (apply Hlow; lia).
    apply Hseat in Hin. lia. }
  eexists. split; [reflexivity|]. split; [|by split].
  intros q. cbn. rewrite lookup_insert_is_Some, (Hseat q). lia.
Qed.

Lemma seated_run (tokens : list string) s (k : nat) :
  seated k s -> currentPlayerCount s = k -> k <= Game.getPlayerCount rules (game s) ->
  let s' := run rules (autoRegistrations tokens) s in
  let k' := (k + length tokens) `min` Game.getPlayerCount rules (game s) in
  seated k' s' /\ currentPlayerCount s' = k' /\ game s' = game s.
Proof.
  revert s k. induction tokens as [|playerToken tokens IH]; intros s k Hseat Hk Hle; cbn zeta.
  { cbn [length]. by replace ((k + 0) `min` _) with k by lia. }
  change (autoRegistrations (playerToken :: tokens))
    with (@OpRegister rules None playerToken :: autoRegistrations tokens).
  rewrite run_cons. pose proof (seated_register s k playerToken Hseat Hk) as Hreg.
  unfold step. case_bool_decide as Hfull.
  - rewrite Hreg. destruct (IH s k Hseat Hk Hle) as (H1 & H2 & H3).
    cbn [length]. by replace ((k + S (length tokens)) `min` _)
      with ((k + length tokens) `min` Game.getPlayerCount rules (game s)) by lia.
  - destruct Hreg as (s1 & -> & Hseat1 & Hk1 & Hg1).
    destruct (IH s1 (S k) Hseat1 Hk1) as (H1 & H2 & H3); [rewrite Hg1; lia|].
    rewrite Hg1 in *. cbn [length].
    by replace ((k + S (length tokens)) `min` _)
      with ((S k + length tokens) `min` Game.getPlayerCount rules (game s)) by lia.
Qed.

(** X4: players that register without requesting a slot, as the route does,
    are numbered in the order of their registration: after [k] such
    registrations on a new session, the next one returns player [k + 1] as
    long as [k] is below the player count, and [null] from then on; the
    registered slots are exactly 1 to the smaller of [k] and the player
    count. *)
Theorem auto_registration_numbers (id0 : string) (g : Game.State rules)
    (tokens : list string) (playerToken : string) :
  let s := run rules (autoRegistrations tokens) (new rules id0 g) in
  let n := Game.getPlayerCount rules g in
  (length tokens < n ->
   exists s', registerNewPlayer rules None playerToken s
              = Normal (Some (Z.of_nat (S (length tokens)), playerToken), s'))
  /\ (n <= length tokens -> registerNewPlayer rules None playerToken s = Normal (None, s))
  /\ seated (length tokens `min` n) s
  /\ currentPlayerCount s = length tokens `min` n.
Proof.
  cbn zeta.
  destruct (seated_run tokens (new rules id0 g) 0) as (Hseat & Hk & Hg);
    [|reflexivity|cbn; lia|].
  { intros q. cbn. rewrite lookup_empty. split; [by intros [? ?] | lia]. }
  cbn [Nat.add new game] in Hseat, Hk, Hg.
  set (s := run rules (autoRegistrations tokens) (new rules id0 g)) in *.
  pose proof (seated_register s _ playerToken Hseat Hk) as Hreg. rewrite Hg in Hreg.
  split; [|split; [|by split]].
  - intros Hlt. rewrite bool_decide_eq_false_2 in Hreg by lia.
    destruct Hreg as (s' & Hr & _). exists s'.
    by replace (length tokens) with (length tokens `min` Game.getPlayerCount rules g) at 1
      by lia.
  - intros Hge. rewrite bool_decide_eq_true_2 in Hreg by lia. exact Hreg.
Qed.

(** The invariant behind the start of a session: the counters count, the
    room is never overfull, and the session has started exactly when every
    player of a positive player count has connected. *)
Lemma assembly_step (n : nat) s op :
  (forall g, Game.getPlayerCount rules g = n) ->
  lifecycle s /\ counted s /\ currentPlayerCount s <= n
  /\ (status s = NOT_STARTED <-> connectedPlayerCount s < n \/ n = 0) ->
  let s' := step rules s op in
  lifecycle s' /\ counted s' /\ currentPlayerCount s' <= n
  /\ (status s' = NOT_STARTED <-> connectedPlayerCount s' < n \/ n = 0).
Proof.
  intros Hconst (Hl & Hc & Hle & Hst). cbn zeta.
  split; [by apply lifecycle_step|]. split; [by apply counted_step|].
  pose proof (counted_step s op Hc) as [Hc1 Hc2].
  assert (connectedPlayerCount (step rules s op) <= currentPlayerCount (step rules s op))
    as Hcc by (rewrite Hc1, Hc2; apply map_size_filter).
  destruct (registry_step s op) as
    [(_ & _ & Hcur & Hcon & Hns)
    |[(player & playerToken & p & -> & Hreg & _ & _ & _ & _ & Hcur & Hcon & Hns & Hg)
     |(p & _ & _ & _ & _ & Hcur & Hcon & Hg & Hns)]].
  - rewrite Hcur, Hcon, (Hns Hl). by split.
  - rewrite Hcon, Hns. split; [|exact Hst].
    unfold registerNewPlayer in Hreg.
    destruct (match requestedSlot player with Some _ => _ | None => _ end);
      [discriminate|].
    case_bool_decide as Hfull; [discriminate|].
    rewrite Hconst in Hfull. rewrite Hcur. lia.
  - rewrite Hcur. split; [exact Hle|]. rewrite Hns, Hconst, Hst.
    rewrite Hcon, Hcur in Hcc. rewrite Hcon. lia.
Qed.

(** X5: when the player count of the rules module does not depend on the
    state of the game, a session built by the constructor and any calls has
    started exactly when the player count is positive and that many players
    have connected. Once it has started the room is full, so every
    registration returns [null], and every registered player has connected,
    so [connect] returns at once for a registered player and throws for
    any other. *)
Theorem started_iff_all_connected (n : nat) (id0 : string) (g : Game.State rules)
    (ops : list (Op rules)) :
  (forall g', Game.getPlayerCount rules g' = n) ->
  let s := run rules ops (new rules id0 g) in
  (status s <> NOT_STARTED <-> 0 < n /\ connectedPlayerCount s = n)
  /\ connectedPlayerCount s <= n
  /\ (status s <> NOT_STARTED ->
      currentPlayerCount s = n
      /\ (forall player playerToken,
            registerNewPlayer rules player playerToken s = Normal (None, s))
      /\ (forall p, connect rules p s = match playerState s !! p with
                                        | Some _ => Normal s
                                        | None => Throw
                                        end)).
Proof.
  intros Hconst. cbn zeta.
  assert (lifecycle (run rules ops (new rules id0 g))
          /\ counted (run rules ops (new rules id0 g))
          /\ currentPlayerCount (run rules ops (new rules id0 g)) <= n
          /\ (status (run rules ops (new rules id0 g)) = NOT_STARTED <->
              connectedPlayerCount (run rules ops (new rules id0 g)) < n \/ n = 0))
    as (Hl & [Hc1 Hc2] & Hle & Hst).
  { apply (run_invariant rules (fun s =>
      lifecycle s /\ counted s /\ currentPlayerCount s <= n
      /\ (status s = NOT_STARTED <-> connectedPlayerCount s < n \/ n = 0))).
    - intros s op Hs. by apply assembly_step.
    - split; [apply lifecycle_new|]. split; [by split|]. cbn. split; [lia|]. split; [lia|done]. }
  set (s := run rules ops (new rules id0 g)) in *.
  assert (connectedPlayerCount s <= currentPlayerCount s) as Hcc
    by (rewrite Hc1, Hc2; apply map_size_filter).
  split; [|split; [lia|]].
  - split.
    + intros Hns. destruct (decide (connectedPlayerCount s < n \/ n = 0)) as [Hlt|Hge];
        [by apply Hst in Hlt|]. lia.
    + intros [Hpos Hall] Hns. apply Hst in Hns. lia.
  - intros Hns.
    assert (connectedPlayerCount s = n /\ currentPlayerCount s = n) as [Hall Hfull].
    { destruct (decide (connectedPlayerCount s < n \/ n = 0)) as [Hlt|Hge];
        [by apply Hst in Hlt|]. lia. }
    split; [exact Hfull|]. split.
    + intros player playerToken. unfold registerNewPlayer.
      destruct (match requestedSlot player with Some _ => _ | None => _ end);
        [reflexivity|].
      by rewrite bool_decide_eq_true_2 by (by rewrite Hconst).
    + intros p. unfold connect.
      destruct (playerState s !! p) as [ps|] eqn:Hp; [|reflexivity].
      assert (connectedRecords (playerState s) = playerState s) as Heq.
      { apply map_subseteq_size_eq; [apply map_filter_subseteq|]. lia. }
      rewrite <- Heq in Hp. apply map_lookup_filter_Some in Hp as [_ Hconn].
      cbn in Hconn. by rewrite Hconn.
Qed.

End Registry.

(** ** Events and history over the life of a session *)
Section Transcripts.

Variable rules : Game.t.
Implicit Types s : GameInstance.t rules.

Lemma ends_app (l1 l2 : list (Event rules)) : ends (l1 ++ l2) = ends l1 + ends l2.
Proof. unfold ends. by rewrite List.filter_app, length_app. Qed.

Lemma stateEvents_snoc (l : list (Event rules)) e :
  stateEvents (l ++ [e]) = stateEvents l + (if isStateEvent e then 1 else 0).
Proof.
  unfold stateEvents. rewrite List.filter_app, length_app. cbn.
  destruct (isStateEvent e); reflexivity.
Qed.

Lemma emittedMoves_snoc (l : list (Event rules)) e :
  emittedMoves (l ++ [e]) = emittedMoves l ++ option_list (moveOfEvent e).
Proof. unfold emittedMoves. rewrite omap_app. cbn. by destruct (moveOfEvent e). Qed.

(** [_onStateChange] on a running session whose first event was ["start"]. *)
Lemma ordered_onStateChange a b s (tl : list (Event rules)) :
  status s = STARTED -> emitted s = EvStart :: tl -> ends tl = 0 ->
  ordered (status (_onStateChange rules a b s)) (emitted (_onStateChange rules a b s)).
Proof.
  intros Hst Hem Hends. destruct (Game.isEnded rules (game s)) eqn:He.
  - destruct (onStateChange_over rules a b s He) as (H1 & _ & -> & _).
    rewrite H1, Hem. destruct (Game.isError rules (game s)); by exists tl.
  - destruct (onStateChange_running rules a b s He) as (-> & _ & -> & _).
    rewrite Hst, Hem. eexists. split; [reflexivity|].
    rewrite ends_app, Hends. by destruct a, b.
Qed.

Lemma ordered_step s op :
  lifecycle s -> ordered (status s) (emitted s) ->
  ordered (status (step rules s op)) (emitted (step rules s op)).
Proof.
  intros Hl Ho. destruct op as [player playerToken|player|player mv elapsed|].
  - unfold step, registerNewPlayer. repeat case_match; simplify_eq; exact Ho.
  - unfold step, connect.
    destruct (playerState s !! player) as [ps|]; [|exact Ho].
    destruct (connectedOnce ps); [exact Ho|].
    match goal with |- context [negb (hasStarted rules ?x)] => set (s1 := x) end.
    destruct (hasStarted rules s1) eqn:Hs; cbn [negb andb]; [exact Ho|].
    case_bool_decide; [|exact Ho].
    apply hasStarted_false in Hs. change (status s1) with (status s) in Hs.
    rewrite Hs in Ho. cbn in Ho.
    apply (ordered_onStateChange _ _ _ []); cbn; [reflexivity | by rewrite Ho | reflexivity].
  - unfold step, GameInstance.move.
    destruct (hasStarted rules s) eqn:Hs; cbn [negb]; [|exact Ho].
    destruct (Game.isEnded rules (game s)) eqn:He; cbn [orb]; [exact Ho|].
    destruct (Game.isValidMove rules (game s) player mv); cbn [negb]; [|exact Ho].
    apply hasStarted_true in Hs.
    pose proof (lifecycle_started rules s Hl Hs (or_introl He)) as Hst.
    rewrite Hst in Ho. destruct Ho as (tl & Hem & Hends).
    destruct (Timer.stop elapsed (moveTimer s)) as [moveTime tm]. cbn [snd].
    apply (ordered_onStateChange _ _ _ (tl ++ [EvMove player mv])); cbn;
      [exact Hst | by rewrite Hem | by rewrite ends_app, Hends].
  - unfold step, timerFire, Timer.fire.
    destruct (Timer.pending (moveTimer s)) as [d|] eqn:Hp; [|exact Ho].
    assert (status s = STARTED) as Hst.
    { apply lifecycle_started; [exact Hl| |right; by rewrite Hp].
      intros Hn. unfold lifecycle in Hl. rewrite Hn in Hl. destruct Hl as (_ & Ht & _).
      congruence. }
    rewrite Hst in Ho. destruct Ho as (tl & Hem & Hends).
    unfold _onMoveTimeout. cbn.
    destruct (Game.onMoveTimeout rules (game s)) as [changed g]. destruct changed.
    + by apply (ordered_onStateChange _ _ _ tl).
    + cbn. rewrite Hst. by exists tl.
Qed.

(** X6: in every session built by the constructor and any calls, nothing
    has been emitted while the status is NOT_STARTED; from the start on the
    first event emitted is ["start"]; ["end"] has been emitted once if the
    status is ENDED or ERROR and never otherwise; and once the status is
    ENDED or ERROR, ["end"] is the last event emitted. *)
Theorem events_in_order (id0 : string) (g : Game.State rules) (ops : list (Op rules)) :
  let s := run rules ops (new rules id0 g) in
  (emitted s = [] <-> status s = NOT_STARTED)
  /\ (status s <> NOT_STARTED -> head (emitted s) = Some EvStart)
  /\ ends (emitted s) = (if bool_decide (status s = ENDED \/ status s = ERROR) then 1 else 0)
  /\ (status s = ENDED \/ status s = ERROR -> last (emitted s) = Some EvEnd).
Proof.
  cbn zeta.
  assert (lifecycle (run rules ops (new rules id0 g))
          /\ ordered (status (run rules ops (new rules id0 g)))
                     (emitted (run rules ops (new rules id0 g)))) as [_ Ho].
  { apply (run_invariant rules (fun s => lifecycle s /\ ordered (status s) (emitted s))).
    - intros s op [Hl Ho]. split; [by apply lifecycle_step | by apply ordered_step].
    - split; [apply lifecycle_new | reflexivity]. }
  set (s := run rules ops (new rules id0 g)) in *.
  assert (forall (mid : list (Event rules)), ends mid = 0 ->
            ends (EvStart :: mid ++ [EvEnd]) = 1) as Hone.
  { intros mid Hmid. change (EvStart :: mid ++ [EvEnd]) with ([@EvStart rules] ++ mid ++ [EvEnd]).
    by rewrite !ends_app, Hmid. }
  destruct (status s) eqn:Hst; cbn in Ho.
  - rewrite Ho. repeat split; try done. all: try (intros [?|?]; discriminate).
  - destruct Ho as (tl & -> & Hends). repeat split; try done.
    all: try (intros [?|?]; discriminate).
    all: try (change (EvStart :: tl) with ([@EvStart rules] ++ tl);
              by rewrite ends_app, Hends).
  - destruct Ho as (mid & -> & Hends). repeat split; try done.
    all: try (by apply Hone).
    all: try (intros _; change (EvStart :: mid ++ [EvEnd])
                          with ((EvStart :: mid) ++ [@EvEnd rules]); apply last_snoc).
  - destruct Ho as (mid & -> & Hends). repeat split; try done.
    all: try (by apply Hone).
    all: try (intros _; change (EvStart :: mid ++ [EvEnd])
                          with ((EvStart :: mid) ++ [@EvEnd rules]); apply last_snoc).
Qed.

(** A call on a session whose game is over changes neither the rules
    object nor anything an observer sees. *)
Lemma terminal_frozen s op :
  terminal s ->
  let s' := step rules s op in
  game s' = game s /\ status s' = status s /\ history s' = history s
  /\ emitted s' = emitted s /\ moveTimer s' = moveTimer s /\ visited s' = visited s.
Proof.
  intros (Hst & He & Ht).
  assert (hasStarted rules s = true) as Hs.
  { apply hasStarted_true. destruct Hst; congruence. }
  destruct op as [player playerToken|player|player mv elapsed|]; cbn zeta.
  - unfold step, registerNewPlayer. repeat case_match; simplify_eq; by repeat split.
  - unfold step, connect. destruct (playerState s !! player) as [ps|]; [|by repeat split].
    destruct (connectedOnce ps); [by repeat split|].
    match goal with |- context [negb (hasStarted rules ?x)] =>
      change (hasStarted rules x) with (hasStarted rules s) end.
    rewrite Hs. cbn [negb andb]. by repeat split.
  - unfold step, GameInstance.move. rewrite Hs, He. cbn. by repeat split.
  - unfold step, timerFire, Timer.fire. rewrite Ht. by repeat split.
Qed.

(** X7: once a session built by the constructor has reached status ENDED or
    ERROR, no later call (registration, connection, move or timer fire)
    changes the status, the state of the rules object, the history or the
    timer, and no further event is emitted. *)
Theorem game_over_is_final (id0 : string) (g : Game.State rules) (ops more : list (Op rules)) :
  let s := run rules ops (new rules id0 g) in
  status s = ENDED \/ status s = ERROR ->
  let s' := run rules more s in
  status s' = status s /\ game s' = game s /\ history s' = history s
  /\ emitted s' = emitted s /\ moveTimer s' = moveTimer s.
Proof.
  cbn zeta. intros Hst.
  pose proof (lifecycle_run rules id0 g ops) as Hl.
  set (s := run rules ops (new rules id0 g)) in *.
  assert (terminal s) as Hterm.
  { unfold lifecycle in Hl. split; [exact Hst|].
    destruct Hst as [Hst|Hst]; rewrite Hst in Hl; tauto. }
  enough (terminal (run rules more s)
          /\ status (run rules more s) = status s /\ game (run rules more s) = game s
          /\ history (run rules more s) = history s
          /\ emitted (run rules more s) = emitted s
          /\ moveTimer (run rules more s) = moveTimer s) by tauto.
  apply (run_invariant rules (fun s' =>
    terminal s' /\ status s' = status s /\ game s' = game s /\ history s' = history s
    /\ emitted s' = emitted s /\ moveTimer s' = moveTimer s));
    [|split; [exact Hterm | by repeat split]].
  intros s' op (Ht' & <- & <- & <- & <- & <-).
  destruct (terminal_frozen s' op Ht') as (? & ? & ? & ? & ? & _).
  split; [by apply terminal_step|]. by repeat split.
Qed.

Lemma faithful_emit e s : faithful s -> faithful (emit rules e s).
Proof.
  intros [Hm Hn]. unfold faithful, snapshots, loggedMoves in *.
  destruct e; cbn [emit log_event onStateEvent onMoveEvent set_history history emitted
                   events next];
    rewrite emittedMoves_snoc, stateEvents_snoc; cbn [moveOfEvent isStateEvent option_list];
    rewrite ?app_nil_r.
  1,2: destruct (next (history s)); rewrite ?omap_app, ?List.filter_app, ?length_app;
       cbn; rewrite ?app_nil_r; split; try exact Hm; lia.
  2,3: split; [exact Hm | lia].
  destruct (next (history s)); rewrite ?omap_app, ?List.filter_app, ?length_app;
    cbn; rewrite ?omap_app, ?List.filter_app, ?length_app; cbn;
    rewrite ?app_nil_r, <- ?app_assoc, Hm; split; try reflexivity; lia.
Qed.

Lemma faithful_onStateChange a b s :
  faithful s -> faithful (_onStateChange rules a b s).
Proof.
  intros H. unfold _onStateChange.
  destruct (negb (Game.isEnded rules (game s))).
  - destruct a, b; cbn [set_moveTimer]; unfold faithful; cbn [history emitted];
      repeat apply faithful_emit; exact H.
  - apply faithful_emit. exact H.
Qed.

Lemma faithful_step s op : faithful s -> faithful (step rules s op).
Proof.
  intros H. destruct op as [player playerToken|player|player mv elapsed|].
  - unfold step, registerNewPlayer. repeat case_match; simplify_eq; exact H.
  - unfold step, connect. destruct (playerState s !! player) as [ps|]; [|exact H].
    destruct (connectedOnce ps); [exact H|].
    destruct (_ && _); [|exact H].
    apply faithful_onStateChange, faithful_emit. exact H.
  - unfold step, GameInstance.move.
    destruct (hasStarted rules s); cbn [negb]; [|exact H].
    destruct (Game.isEnded rules (game s) || _); [exact H|].
    destruct (Timer.stop elapsed (moveTimer s)) as [moveTime tm]. cbn [snd].
    apply faithful_onStateChange, faithful_emit. exact H.
  - unfold step, timerFire, _onMoveTimeout.
    destruct (Timer.fire (moveTimer s)); [|exact H]. cbn.
    destruct (Game.onMoveTimeout rules (game s)) as [changed g].
    destruct changed; [|exact H]. apply faithful_onStateChange. exact H.
Qed.

(** X8: the history of a session built by the constructor loses nothing,
    whatever calls arrive: the move entries of the log are exactly the moves
    emitted with ["move"], in the same order, and the snapshots the history
    holds (those of the log and the pending one) are as many as the
    ["start"] and ["stateChange"] events emitted. *)
Theorem history_is_faithful (id0 : string) (g : Game.State rules) (ops : list (Op rules)) :
  let s := run rules ops (new rules id0 g) in
  loggedMoves (events (history s)) = emittedMoves (emitted s)
  /\ snapshots (history s) = stateEvents (emitted s).
Proof.
  cbn zeta. apply (run_invariant rules faithful); [apply faithful_step|]. by split.
Qed.

(** X9: a move that returns [true] is the last entry of the log when the
    call returns, preceded by the snapshot that was pending before it; the
    pending snapshot is then the full state after the move if the game goes
    on, and there is none if the move ended the game, so the final state of
    a game that a move ends is never part of the history. *)
Theorem move_is_logged s (player : Z) (mv : Game.Move rules) (elapsed : Z) :
  fst (GameInstance.move rules player mv elapsed s) = Some true ->
  let s' := snd (GameInstance.move rules player mv elapsed s) in
  events (history s')
    = events (history s) ++ pendingEntry (history s) ++ [HistMove player mv]
  /\ last (events (history s')) = Some (HistMove player mv)
  /\ next (history s')
     = (if Game.isEnded rules (game s') then None
        else Some (Game.getFullState rules (game s'))).
Proof.
  unfold GameInstance.move.
  destruct (hasStarted rules s); cbn [negb]; [|discriminate].
  destruct (Game.isEnded rules (game s) || _); [discriminate|].
  destruct (Timer.stop elapsed (moveTimer s)) as [moveTime tm]. cbn [fst snd]. intros _.
  match goal with |- context [_onStateChange rules true true ?x] => set (s0 := x) end.
  assert (history s0
          = {| events := events (history s)
                           ++ pendingEntry (history s) ++ [HistMove player mv];
               next := None |}) as H0.
  { subst s0. by rewrite history_emit_move. }
  destruct (onStateChange_frame rules true true s0) as (_ & -> & _).
  assert (events (history (_onStateChange rules true true s0))
          = events (history s) ++ pendingEntry (history s) ++ [HistMove player mv]
          /\ next (history (_onStateChange rules true true s0))
             = (if Game.isEnded rules (game s0) then None
                else Some (Game.getFullState rules (game s0)))) as [-> ->].
  { destruct (Game.isEnded rules (game s0)) eqn:He0.
    - destruct (onStateChange_over rules true true s0 He0) as (_ & _ & _ & -> & _).
      by rewrite H0.
    - destruct (onStateChange_running rules true true s0 He0) as (_ & _ & _ & -> & _).
      rewrite H0. cbn. by rewrite app_nil_r. }
  split; [reflexivity|]. split; [|reflexivity].
  by rewrite !app_assoc, last_snoc.
Qed.

Lemma getHistory_fmap (viewer : option Z) s :
  getHistory rules viewer s = viewEntry viewer <$> events (history s).
Proof. reflexivity. Qed.

(** X1: [getHistory(player)] has one entry per entry of the log, in the
    same order; a move entry is handed out as it is, to every viewer alike
    and at the same position; a state entry is handed out as the view the
    rules module computes for the viewer; and the history a viewer gets
    later only extends the one it got before. *)
Theorem getHistory_entries (viewer viewer' : option Z) s :
  length (getHistory rules viewer s) = length (events (history s))
  /\ (forall i p m,
        getHistory rules viewer s !! i = Some (ViewMove rules p m)
        <-> events (history s) !! i = Some (HistMove p m))
  /\ (forall i p m,
        getHistory rules viewer s !! i = Some (ViewMove rules p m)
        <-> getHistory rules viewer' s !! i = Some (ViewMove rules p m))
  /\ (forall i fullState,
        events (history s) !! i = Some (HistState fullState) ->
        getHistory rules viewer s !! i
          = Some (ViewState rules (Game.getStateView rules fullState viewer)))
  /\ (forall ops,
        getHistory rules viewer s `prefix_of` getHistory rules viewer (run rules ops s)).
Proof.
  assert (forall v i p m,
            getHistory rules v s !! i = Some (ViewMove rules p m)
            <-> events (history s) !! i = Some (HistMove p m)) as Hmove.
  { intros v i p m. rewrite getHistory_fmap, list_lookup_fmap.
    destruct (events (history s) !! i) as [[fs|q n]|]; cbn; split; intros H;
      try discriminate; by simplify_eq. }
  split; [by rewrite getHistory_fmap, length_fmap|]. split; [apply Hmove|].
  split; [intros i p m; by rewrite !Hmove|]. split.
  - intros i fullState Hi. by rewrite getHistory_fmap, list_lookup_fmap, Hi.
  - intros ops. rewrite !getHistory_fmap.
    destruct (events_run rules ops s) as [k ->]. rewrite fmap_app. by eexists.
Qed.

Lemma scheduled_idle s : Timer.pending (moveTimer s) = None -> scheduled s.
Proof. intros Ht d Hd. congruence. Qed.

(** [_onStateChange] on a started session whose timer is idle. *)
Lemma scheduled_onStateChange a b s :
  status s = STARTED -> Timer.pending (moveTimer s) = None ->
  scheduled (_onStateChange rules a b s).
Proof.
  intros Hst Ht. destruct (onStateChange_frame rules a b s) as (_ & Hg & _).
  destruct (Game.isEnded rules (game s)) eqn:He.
  - apply scheduled_idle.
    by destruct (onStateChange_over rules a b s He) as (_ & _ & _ & _ & ->).
  - destruct (onStateChange_running rules a b s He) as (H1 & _ & _ & _ & H5).
    intros d Hd. rewrite H5 in Hd. cbn in Hd. injection Hd as <-.
    by rewrite H1, Hg.
Qed.

Lemma scheduled_step s op :
  lifecycle s -> scheduled s -> scheduled (step rules s op).
Proof.
  intros Hl Hs. destruct op as [player playerToken|player|player mv elapsed|].
  - unfold step, registerNewPlayer. repeat case_match; simplify_eq; exact Hs.
  - unfold step, connect.
    destruct (playerState s !! player) as [ps|]; [|exact Hs].
    destruct (connectedOnce ps); [exact Hs|].
    match goal with |- context [negb (hasStarted rules ?x)] => set (s1 := x) end.
    destruct (hasStarted rules s1) eqn:Hst; cbn [negb andb]; [exact Hs|].
    case_bool_decide; [|exact Hs].
    apply hasStarted_false in Hst. change (status s1) with (status s) in Hst.
    unfold lifecycle in Hl. rewrite Hst in Hl. destruct Hl as (_ & Ht & _).
    by apply scheduled_onStateChange.
  - unfold step, GameInstance.move.
    destruct (hasStarted rules s) eqn:Hst; cbn [negb]; [|exact Hs].
    destruct (Game.isEnded rules (game s)) eqn:He; cbn [orb]; [exact Hs|].
    destruct (Game.isValidMove rules (game s) player mv); cbn [negb]; [|exact Hs].
    apply hasStarted_true in Hst.
    pose proof (lifecycle_started rules s Hl Hst (or_introl He)) as Hstarted.
    destruct (Timer.stop elapsed (moveTimer s)) as [moveTime tm] eqn:Hstop. cbn [snd].
    apply scheduled_onStateChange; cbn; [exact Hstarted|].
    unfold Timer.stop in Hstop. destruct (Timer.pending (moveTimer s)); by simplify_eq.
  - unfold step, timerFire, Timer.fire.
    destruct (Timer.pending (moveTimer s)) as [d|] eqn:Hp; [|exact Hs].
    destruct (Hs d Hp) as (Hstarted & _).
    unfold _onMoveTimeout. cbn.
    destruct (Game.onMoveTimeout rules (game s)) as [changed g]. destruct changed.
    + by apply scheduled_onStateChange.
    + by apply scheduled_idle.
Qed.

(** X10: in every session built by the constructor and any calls (with the
    timer as the specification describes it), a pending timeout belongs to
    a session in status STARTED whose game the rules module does not report
    as over, and runs for the move time limit of the current state of the
    game; so in any other status a timer fire finds nothing scheduled and
    changes nothing. *)
Theorem timeout_only_in_running_game (id0 : string) (g : Game.State rules)
    (ops : list (Op rules)) :
  let s := run rules ops (new rules id0 g) in
  (forall d, Timer.pending (moveTimer s) = Some d ->
     status s = STARTED
     /\ Game.isEnded rules (game s) = false
     /\ d = Game.getMoveTimeLimit rules (game s))
  /\ (status s <> STARTED -> step rules s OpTimerFire = s).
Proof.
  cbn zeta.
  assert (lifecycle (run rules ops (new rules id0 g))
          /\ scheduled (run rules ops (new rules id0 g))) as [_ Hs].
  { apply (run_invariant rules (fun s => lifecycle s /\ scheduled s)).
    - intros s op [Hl Hs]. split; [by apply lifecycle_step | by apply scheduled_step].
    - split; [apply lifecycle_new | by apply scheduled_idle]. }
  split; [exact Hs|].
  intros Hst. unfold step, timerFire, Timer.fire.
  destruct (Timer.pending (moveTimer _)) as [d|] eqn:Hd; [|reflexivity].
  by destruct (Hs d Hd) as (? & _).
Qed.

(** X11: in every session built by the constructor and any calls,
    [isEnded()], [getNextPlayer()] and [getWinner()] return [null] in status
    NOT_STARTED and hand on what the rules module returns in every other
    status; [isEnded()] returns [true] in status ENDED and ERROR; and when
    it returns [false] the status is STARTED. *)
Theorem accessors_agree_with_status (id0 : string) (g : Game.State rules)
    (ops : list (Op rules)) :
  let s := run rules ops (new rules id0 g) in
  (status s = NOT_STARTED ->
   isEnded rules s = None /\ getNextPlayer rules s = None /\ getWinner rules s = None)
  /\ (status s <> NOT_STARTED ->
      isEnded rules s = Some (Game.isEnded rules (game s))
      /\ getNextPlayer rules s = Some (Game.getNextPlayer rules (game s))
      /\ getWinner rules s = Some (Game.getWinner rules (game s)))
  /\ (status s = ENDED \/ status s = ERROR -> isEnded rules s = Some true)
  /\ (isEnded rules s = Some false -> status s = STARTED).
Proof.
  cbn zeta. pose proof (lifecycle_run rules id0 g ops) as Hl.
  set (s := run rules ops (new rules id0 g)) in *.
  unfold isEnded, getNextPlayer, getWinner.
  destruct (hasStarted rules s) eqn:Hs.
  - apply hasStarted_true in Hs.
    split; [intros; congruence|]. split; [done|]. split.
    + intros Hst. unfold lifecycle in Hl. f_equal.
      destruct Hst as [Hst|Hst]; rewrite Hst in Hl; tauto.
    + intros [= He]. apply lifecycle_started; auto.
  - apply hasStarted_false in Hs.
    split; [done|]. split; [intros; congruence|]. split; [|discriminate].
    intros [Hst|Hst]; congruence.
Qed.

End Transcripts.

(** ** More sessions of the small rules module *)
Section MoreRuns.

Import Toy.

(** X5, witness: the player count of the small rules module is always 2,
    and the seated session has started. *)
Lemma started_iff_all_connected_witness :
  let s := session fresh seat in
  (status s <> NOT_STARTED <-> 0 < 2 /\ connectedPlayerCount s = 2)
  /\ connectedPlayerCount s <= 2
  /\ (status s <> NOT_STARTED ->
      currentPlayerCount s = 2
      /\ (forall player playerToken,
            registerNewPlayer rules player playerToken s = Normal (None, s))
      /\ (forall p, connect rules p s = match playerState s !! p with
                                        | Some _ => Normal s
                                        | None => Throw
                                        end)).
Proof.
  exact (started_iff_all_connected rules 2 "g1" fresh seat (fun _ => eq_refl)).
Defined.

(** X7, witness: after player 1 has won, a move, a timer fire, a connection
    and a registration change nothing of the game. *)
Lemma game_over_is_final_witness :
  let s := session fresh (seat ++ [play 1 Win 5]) in
  let s' := run rules [play 2 Pass 1; tick; OpConnect 1; OpRegister None "cc"] s in
  status s' = status s /\ game s' = game s /\ history s' = history s
  /\ emitted s' = emitted s /\ moveTimer s' = moveTimer s.
Proof.
  exact (game_over_is_final rules "g1" fresh (seat ++ [play 1 Win 5])
           [play 2 Pass 1; tick; OpConnect 1; OpRegister None "cc"]
           ltac:(left; vm_compute; reflexivity)).
Defined.

(** X9, witness: player 1 passes in the seated game. *)
Lemma move_is_logged_witness :
  let s := session fresh seat in
  let s' := snd (GameInstance.move rules 1 Pass 5 s) in
  events (history s')
    = events (history s) ++ pendingEntry (history s) ++ [@HistMove rules 1 Pass]
  /\ last (events (history s')) = Some (@HistMove rules 1 Pass)
  /\ next (history s')
     = (if Game.isEnded rules (game s') then None
        else Some (Game.getFullState rules (game s'))).
Proof.
  exact (move_is_logged rules (session fresh seat) 1 Pass 5 ltac:(by vm_compute)).
Defined.


End MoreRuns.
